(** * cool_fireworks: the ASCII firework simulation, embedded and verified

    A shallow embedding of [cool_fireworks.py].  Python floats are IEEE
    binary64 numbers and are modelled by Rocq's primitive floats; Python
    integers are [Z]; Python strings are [string]s holding the UTF-8
    encoding of the text.  The [random] module, [math.cos], [math.sin]
    and [time.sleep] are library code: they enter as interfaces (type
    classes) with the contract their documentation gives, and so does
    the Unicode database for text outside ASCII.  Exceptions are a
    result type. *)

From Stdlib Require Import ZArith List String Ascii Bool Lia Floats.
From Stdlib Require Import DecimalString.
From stdpp Require Import base list.

Set Warnings "-inexact-float".
Set Default Proof Using "Type*".

Local Open Scope Z_scope.

(** ** Exceptions *)

Inductive exn : Type :=
| OverflowError
| ValueError
| IndexError
| ZeroDivisionError
| ArgumentTypeError (msg : string).

Inductive result (A : Type) : Type :=
| Ok (a : A)
| Raise (e : exn).
Arguments Ok {A} a.
Arguments Raise {A} e.

Definition is_ok {A} (r : result A) : bool :=
  match r with Ok _ => true | Raise _ => false end.

(** ** Python numbers *)

Module PyNum.

(** The exact value of a finite float is [(-1)^s * m * 2^e]. *)
Definition signed (s : bool) (m : positive) : Z :=
  if s then Z.neg m else Z.pos m.

(** Mixed comparison of a float with an integer.  Python compares the
    two exactly (no rounding of the integer); a NaN compares with
    nothing. *)
Definition float_cmp_int (f : float) (n : Z) : option comparison :=
  match Prim2SF f with
  | S754_nan => None
  | S754_zero _ => Some (0 ?= n)
  | S754_infinity s => Some (if s then Lt else Gt)
  | S754_finite s m e =>
      Some (if 0 <=? e then signed s m * 2 ^ e ?= n
            else signed s m ?= n * 2 ^ (- e))
  end.

(** [f < n] *)
Definition float_lt_int (f : float) (n : Z) : bool :=
  match float_cmp_int f n with Some Lt => true | _ => false end.

(** [f >= n], which is also [n <= f] *)
Definition float_ge_int (f : float) (n : Z) : bool :=
  match float_cmp_int f n with Some Gt | Some Eq => true | _ => false end.

Definition int_le_float (n : Z) (f : float) : bool := float_ge_int f n.

(** [int(f)]: truncation toward zero; [ValueError] on a NaN and
    [OverflowError] on an infinity. *)
Definition int_of_float (f : float) : result Z :=
  match Prim2SF f with
  | S754_nan => Raise ValueError
  | S754_infinity _ => Raise OverflowError
  | S754_zero _ => Ok 0
  | S754_finite s m e =>
      let q := Z.shiftl (Z.pos m) e in Ok (if s then - q else q)
  end.

(** The conversion of an integer operand in float arithmetic: the
    nearest float, ties to even, and [OverflowError] when that is not
    finite. *)
Definition float_of_int (n : Z) : result float :=
  let f := SF2Prim (binary_normalize prec emax n 0 false) in
  if PrimFloat.is_infinity f then Raise OverflowError else Ok f.

(** [a % b] on integers: the sign follows the divisor, as [Z.modulo]. *)
Definition int_mod (a b : Z) : result Z :=
  if b =? 0 then Raise ZeroDivisionError else Ok (a mod b).

(** A float that is neither a NaN nor an infinity. *)
Definition finite (f : float) : bool :=
  match Prim2SF f with
  | S754_nan | S754_infinity _ => false
  | _ => true
  end.

(** [str(n)] for an integer, as an f-string field formats it. *)
Definition str_of_int (n : Z) : string :=
  NilZero.string_of_int (Z.to_int n).

End PyNum.

(** ** Particle *)

Module Particle.

(** The dataclass.  [life] carries the annotation [float] in the
    source, but it is only ever built from [random.randint] and
    decremented by [1]: it is an integer counter. *)
Record t : Type := Build {
  x : float;
  y : float;
  vx : float;
  vy : float;
  life : Z;
  colour : Z
}.

(** [Particle.step(gravity, damping)]: the particle after the call and
    the returned flag. *)
Definition step (self : t) (gravity damping : float) : t * bool :=
  if life self <=? 0 then (self, false)
  else
    let x1 := (x self + vx self)%float in
    let y1 := (y self + vy self)%float in
    let vx1 := (vx self * damping)%float in
    let vy1 := (vy self * damping + gravity)%float in
    let life1 := life self - 1 in
    (Build x1 y1 vx1 vy1 life1 (colour self),
     (0 <? life1) && PyNum.float_ge_int y1 0).

End Particle.

(** ** Library interfaces *)

(** The shared generator of the [random] module.  [G] is its state;
    every draw returns the value and the next state.  [seed n] is the
    state [random.seed(n)] installs: it depends on [n] alone. *)
Class RandomSource (G : Type) : Type := {
  seed : Z -> G;
  uniform : float -> float -> G -> float * G;
  randrange : Z -> G -> Z * G;
  randint : Z -> Z -> G -> Z * G;
  choice : forall A : Type, list A -> G -> option A * G
}.
Arguments choice {G _ A} _ _.

(** What the documentation of [random] promises about the values. *)
Class RandomLaws (G : Type) {RS : RandomSource G} : Prop := {
  uniform_range : forall (a b : float) (g : G),
    PrimFloat.leb a b = true ->
    PrimFloat.leb a (fst (uniform a b g)) = true /\
    PrimFloat.leb (fst (uniform a b g)) b = true;
  randrange_range : forall (n : Z) (g : G),
    0 < n -> 0 <= fst (randrange n g) < n;
  randint_range : forall (a b : Z) (g : G),
    a <= b -> a <= fst (randint a b g) <= b;
  choice_elem : forall (A : Type) (l : list A) (g : G),
    l <> [] -> exists c, fst (choice l g) = Some c /\ In c l
}.

(** [math.cos] and [math.sin], as the platform's C library computes
    them. *)
Class Libm : Type := {
  cos : float -> float;
  sin : float -> float
}.

(** [time.sleep]: it returns, or raises on a delay it does not take
    (CPython: [ValueError] on a negative number and on a NaN,
    [OverflowError] on a number too large for its clock). *)
Class Clock : Type := {
  sleep : float -> result unit
}.

(** The Unicode database of the interpreter, for a [str] with a
    character outside ASCII: there [str.lower] maps the cased letters of
    every script, and [int] takes the decimal digits and the white space
    of every script.  [wide_int] is [None] where [int] raises
    [ValueError], the one exception it raises on a string. *)
Class Unicode : Type := {
  wide_lower : string -> string;
  wide_int : string -> option Z
}.

(** [math.pi] *)
Definition pi : float := 3.141592653589793%float.

(** ** Python sequences *)

Module PySeq.

(** [len(l)] *)
Definition len {A} (l : list A) : Z := Z.of_nat (length l).

(** [l[i]]: a negative index counts from the end, and an index outside
    the list raises [IndexError]. *)
Definition index {A} (l : list A) (i : Z) : result A :=
  let j := if i <? 0 then len l + i else i in
  if j <? 0 then Raise IndexError
  else match l !! Z.to_nat j with
       | Some a => Ok a
       | None => Raise IndexError
       end.

(** [l[i] = v] *)
Definition set_index {A} (l : list A) (i : Z) (v : A) : result (list A) :=
  let j := if i <? 0 then len l + i else i in
  if (j <? 0) || (len l <=? j) then Raise IndexError
  else Ok (<[Z.to_nat j := v]> l).

(** [grid[i][j] = v] on a list of distinct row objects. *)
Definition set_cell {A} (grid : list (list A)) (i j : Z) (v : A)
  : result (list (list A)) :=
  match index grid i with
  | Raise e => Raise e
  | Ok row =>
      match set_index row j v with
      | Raise e => Raise e
      | Ok row' => set_index grid i row'
      end
  end.

(** [range(n)] *)
Definition range (n : Z) : list Z := map Z.of_nat (seq 0 (Z.to_nat n)).

(** [sep.join(parts)] *)
Fixpoint join (sep : string) (parts : list string) : string :=
  match parts with
  | [] => EmptyString
  | [s] => s
  | s :: rest => (s ++ sep ++ join sep rest)%string
  end.

(** [''.join(parts)] *)
Definition concat (parts : list string) : string :=
  fold_right String.append EmptyString parts.

End PySeq.

(** The palette of bright ANSI 256 colour codes. *)
Definition PALETTE : list Z :=
  [196; 202; 208; 214; 220; 226; 190; 118; 51; 45; 39; 33; 201; 207].

(** ** FireworkShow *)

Module FireworkShow.

Record t : Type := Build {
  width : Z;
  height : Z;
  gravity : float;
  damping : float;
  sparks : Z;
  particles : list Particle.t;
  frame_counter : Z
}.

(** [__init__] *)
Definition init (width height : Z) (gravity damping : float) (sparks : Z)
  : t :=
  Build width height gravity damping sparks [] 0.

(** [FireworkShow(width=width, height=height)], the other arguments at
    their defaults. *)
Definition default (width height : Z) : t :=
  init width height 0.12%float 0.92%float 120.

(** *** The state a method runs in

    A method reads and writes the object [self] and draws from the
    shared generator; it returns a value or raises. *)
Record world (G : Type) : Type := World { self : t; rng : G }.
Arguments World {G} self rng.
Arguments self {G} w.
Arguments rng {G} w.

Definition M (G A : Type) : Type := world G -> result (A * world G).

Definition ret {G A} (a : A) : M G A := fun w => Ok (a, w).

Definition bind {G A B} (m : M G A) (k : A -> M G B) : M G B :=
  fun w => match m w with
           | Ok (a, w') => k a w'
           | Raise e => Raise e
           end.

Definition lift {G A} (r : result A) : M G A :=
  fun w => match r with Ok a => Ok (a, w) | Raise e => Raise e end.

Definition get {G} : M G t := fun w => Ok (self w, w).

Definition put {G} (s : t) : M G unit := fun w => Ok (tt, World s (rng w)).

Definition draw {G A} (d : G -> A * G) : M G A :=
  fun w => let (a, g) := d (rng w) in Ok (a, World (self w) g).

Declare Scope prog_scope.
Delimit Scope prog_scope with prog.
Notation "x <- m ;; k" := (bind m (fun x => k))
  (at level 100, m at next level, right associativity) : prog_scope.
Notation "m ;; k" := (bind m (fun _ => k))
  (at level 100, right associativity) : prog_scope.
Local Open Scope prog_scope.

(** A [for] loop that collects what its body yields. *)
Fixpoint for_yield {G A B} (body : A -> M G B) (l : list A)
  : M G (list B) :=
  match l with
  | [] => ret []
  | a :: rest =>
      b <- body a;; bs <- for_yield body rest;; ret (b :: bs)
  end.

(** A [for] loop that updates local variables [acc]. *)
Fixpoint for_each {G A S} (body : S -> A -> M G S) (l : list A) (acc : S)
  : M G S :=
  match l with
  | [] => ret acc
  | a :: rest => acc' <- body acc a;; for_each body rest acc'
  end.

Definition set_particles (s : t) (ps : list Particle.t) : t :=
  Build (width s) (height s) (gravity s) (damping s) (sparks s) ps
        (frame_counter s).

Definition set_frame_counter (s : t) (n : Z) : t :=
  Build (width s) (height s) (gravity s) (damping s) (sparks s)
        (particles s) n.

(** [a * n] for a float [a] and an integer [n] *)
Definition mul_float_int (a : float) (n : Z) : result float :=
  match PyNum.float_of_int n with
  | Ok f => Ok (a * f)%float
  | Raise e => Raise e
  end.

(** [0 <= p.x < width and 0 <= p.y < height] *)
Definition on_canvas (s : t) (p : Particle.t) : bool :=
  PyNum.int_le_float 0 (Particle.x p)
  && PyNum.float_lt_int (Particle.x p) (width s)
  && (PyNum.int_le_float 0 (Particle.y p)
      && PyNum.float_lt_int (Particle.y p) (height s)).

(** The loop of [step] over the particles: each one is advanced, and
    appended to [alive] when it reports alive and is on the canvas. *)
Fixpoint survivors (s : t) (ps : list Particle.t) : list Particle.t :=
  match ps with
  | [] => []
  | particle :: rest =>
      let (particle', alive) :=
        Particle.step particle (gravity s) (damping s) in
      if alive then
        if on_canvas s particle' then particle' :: survivors s rest
        else survivors s rest
      else survivors s rest
  end.

Definition ESC : string := String "027" EmptyString.
Definition NL : string := String "010" EmptyString.
Definition SPACE : string := " ".

(** The spark glyphs ["*"], ["•"], ["·"] and ["✶"], in UTF-8. *)
Definition GLYPHS : list string :=
  ["*";
   String "226" (String "128" (String "162" EmptyString));
   String "194" (String "183" EmptyString);
   String "226" (String "156" (String "182" EmptyString))]%string.

(** One cell of [_format_canvas]. *)
Definition format_cell (cell : string * option Z) : string :=
  let (char, colour) := cell in
  match colour with
  | None => char
  | Some c =>
      if String.eqb char SPACE then char
      else (ESC ++ "[38;5;" ++ PyNum.str_of_int c ++ "m" ++ char
                ++ ESC ++ "[0m")%string
  end.

(** [_format_canvas] *)
Definition _format_canvas (canvas : list (list string))
           (colour_map : list (list (option Z))) : string :=
  let lines :=
    map (fun rows : list string * list (option Z) =>
           PySeq.concat (map format_cell (combine (fst rows) (snd rows))))
        (combine canvas colour_map) in
  PySeq.join NL lines.

Section Methods.

Context {G : Type} {RS : RandomSource G} {LM : Libm}.

(** [_create_explosion]: the particles the generator yields, in
    order. *)
Definition _create_explosion (x y radius : float) (hue_shift : Z)
  : M G (list Particle.t) :=
  s <- get;;
  for_yield
    (fun _ : Z =>
       angle <- draw (uniform 0 (2 * pi)%float);;
       speed <- draw (uniform 0.6 1.6);;
       let vx := (cos angle * speed)%float in
       let vy := (sin angle * speed)%float in
       life <- draw (randint 18 40);;
       k <- draw (randrange (PySeq.len PALETTE));;
       i <- lift (PyNum.int_mod (hue_shift + k) (PySeq.len PALETTE));;
       colour <- lift (PySeq.index PALETTE i);;
       ret (Particle.Build x y vx vy life colour))
    (PySeq.range (sparks s)).

(** [spawn_firework].  [list.extend] appends the yielded particles
    one by one; the generator does not read the list, so the result
    is the old list followed by all of them. *)
Definition spawn_firework : M G unit :=
  radius <- draw (uniform 6.0 12.0);;
  s <- get;;
  x_lo <- lift (mul_float_int 0.2 (width s));;
  x_hi <- lift (mul_float_int 0.8 (width s));;
  x <- draw (uniform x_lo x_hi);;
  y_lo <- lift (mul_float_int 0.2 (height s));;
  y_hi <- lift (mul_float_int 0.45 (height s));;
  y <- draw (uniform y_lo y_hi);;
  hue_shift <- draw (randrange (PySeq.len PALETTE));;
  new <- _create_explosion x y radius hue_shift;;
  s <- get;;
  put (set_particles s (particles s ++ new)).

(** The test of [step]: [not self.particles or
    (self.frame_counter % random.randint(18, 26) == 0)].  [or] does
    not evaluate its right operand when the left one is true. *)
Definition spawn_due : M G bool :=
  s <- get;;
  match particles s with
  | [] => ret true
  | _ :: _ =>
      n <- draw (randint 18 26);;
      r <- lift (PyNum.int_mod (frame_counter s) n);;
      ret (r =? 0)
  end.

(** The second half of [step]: the live collection is replaced by
    the survivors and the frame is counted. *)
Definition advance_frame : M G unit :=
  s <- get;;
  let alive := survivors s (particles s) in
  put (set_particles s alive);;
  s <- get;;
  put (set_frame_counter s (frame_counter s + 1)).

(** [step] *)
Definition step : M G unit :=
  due <- spawn_due;;
  (if due : bool then spawn_firework else ret tt);;
  advance_frame.

(** The body of the loop of [render] for one particle. *)
Definition plot (s : t)
           (grids : list (list string) * list (list (option Z)))
           (particle : Particle.t)
  : M G (list (list string) * list (list (option Z))) :=
  let (canvas, colour_map) := grids in
  ix <- lift (PyNum.int_of_float (Particle.x particle));;
  iy <- lift (PyNum.int_of_float (Particle.y particle));;
  if (0 <=? ix) && (ix <? width s) && ((0 <=? iy) && (iy <? height s))
  then
    pick <- draw (choice GLYPHS);;
    char <- lift (match pick with
                  | Some c => Ok c
                  | None => Raise IndexError
                  end);;
    canvas' <- lift (PySeq.set_cell canvas iy ix char);;
    colour_map' <-
      lift (PySeq.set_cell colour_map iy ix (Some (Particle.colour particle)));;
    ret (canvas', colour_map')
  else ret (canvas, colour_map).

(** [render] *)
Definition render : M G string :=
  s <- get;;
  let canvas :=
    map (fun _ => map (fun _ => SPACE) (PySeq.range (width s)))
        (PySeq.range (height s)) in
  let colour_map :=
    map (fun _ => map (fun _ => @None Z) (PySeq.range (width s)))
        (PySeq.range (height s)) in
  grids <- for_each (plot s) (particles s) (canvas, colour_map);;
  ret (_format_canvas (fst grids) (snd grids)).

End Methods.

End FireworkShow.

(** ** Python strings

    A [str] is held as its UTF-8 bytes.  On ASCII text [lower], [split]
    and [int] are written out as CPython computes them; a text with a
    character outside ASCII goes to the Unicode database. *)

Module PyStr.

Definition is_ascii_char (c : ascii) : bool := (nat_of_ascii c <? 128)%nat.

Fixpoint is_ascii (s : string) : bool :=
  match s with
  | EmptyString => true
  | String c rest => is_ascii_char c && is_ascii rest
  end.

Definition is_upper (c : ascii) : bool :=
  let n := nat_of_ascii c in (65 <=? n)%nat && (n <=? 90)%nat.

Definition lower_char (c : ascii) : ascii :=
  if is_upper c then ascii_of_nat (nat_of_ascii c + 32) else c.

(** [s.lower()] on ASCII text: the letters [A] to [Z]. *)
Fixpoint ascii_lower (s : string) : string :=
  match s with
  | EmptyString => EmptyString
  | String c rest => String (lower_char c) (ascii_lower rest)
  end.

(** [s.lower()] *)
Definition lower {U : Unicode} (s : string) : string :=
  if is_ascii s then ascii_lower s else wide_lower s.

(** [s.split(sep, 1)] for a one-character ASCII separator: the text
    before the first [sep] and the text after it, or [s] alone. *)
Fixpoint split1 (sep : ascii) (s : string) : list string :=
  match s with
  | EmptyString => [EmptyString]
  | String c rest =>
      if Ascii.eqb c sep then [EmptyString; rest]
      else match split1 sep rest with
           | [head] => [String c head]
           | head :: tail => String c head :: tail
           | [] => []
           end
  end.

(** The white space [int] skips around an ASCII literal: tab, line
    feed, vertical tab, form feed, carriage return and the space. *)
Definition is_space (c : ascii) : bool :=
  let n := nat_of_ascii c in
  ((9 <=? n)%nat && (n <=? 13)%nat) || (n =? 32)%nat.

Definition is_digit (c : ascii) : bool :=
  let n := nat_of_ascii c in (48 <=? n)%nat && (n <=? 57)%nat.

Definition digit_value (c : ascii) : Z := Z.of_nat (nat_of_ascii c - 48).

Fixpoint lstrip (s : string) : string :=
  match s with
  | EmptyString => EmptyString
  | String c rest => if is_space c then lstrip rest else s
  end.

Fixpoint rstrip (s : string) : string :=
  match s with
  | EmptyString => EmptyString
  | String c rest =>
      match rstrip rest with
      | EmptyString => if is_space c then EmptyString else String c EmptyString
      | kept => String c kept
      end
  end.

(** Decimal digits, single underscores allowed between two digits.
    [after_digit] tells whether the previous character was a digit. *)
Fixpoint digits (acc : Z) (after_digit : bool) (s : string) : option Z :=
  match s with
  | EmptyString => if after_digit then Some acc else None
  | String c rest =>
      if is_digit c then digits (10 * acc + digit_value c) true rest
      else if Ascii.eqb c "_" && after_digit then digits acc false rest
      else None
  end.

(** The number of digits in the text. *)
Fixpoint digit_count (s : string) : Z :=
  match s with
  | EmptyString => 0
  | String c rest => (if is_digit c then 1 else 0) + digit_count rest
  end.

(** [sys.int_info.default_max_str_digits]: the most digits [int] takes
    in CPython 3.11, leading zeros counted, unless the limit is set
    otherwise. *)
Definition MAX_STR_DIGITS : Z := 4300.

(** [int(s)] in base ten on ASCII text: white space around, a sign, the
    digits; [None] when [s] is not such a literal or has too many
    digits. *)
Definition ascii_int (s : string) : option Z :=
  let body := rstrip (lstrip s) in
  let parsed :=
    match body with
    | String "-" rest => option_map Z.opp (digits 0 false rest)
    | String "+" rest => digits 0 false rest
    | _ => digits 0 false body
    end in
  if digit_count body <=? MAX_STR_DIGITS then parsed else None.

(** [int(s)]; [ValueError] when [s] is not an integer literal. *)
Definition int_of_str {U : Unicode} (s : string) : result Z :=
  match (if is_ascii s then ascii_int s else wide_int s) with
  | Some n => Ok n
  | None => Raise ValueError
  end.

End PyStr.

(** ** The command line *)

(** What [parse_args] returns. *)
Record Args : Type := {
  frames : Z;
  interval : float;
  size : string;
  seed_arg : option Z
}.

(** What the process finds around it: the terminal size that
    [shutil.get_terminal_size((80, 24))] reports, and the state of the
    shared generator when the program starts. *)
Record Env (G : Type) : Type := {
  terminal_size : Z * Z;
  startup_rng : G
}.
Arguments terminal_size {G} e.
Arguments startup_rng {G} e.

(** What a run leaves behind: the texts written to standard output, the
    frames [render] returned, and how [main] ended. *)
Record Outcome : Type := {
  stdout : list string;
  rendered : list string;
  status : result unit
}.

(** The exit status of the interpreter: [0] when [main] returns, [1] when
    an exception leaves it. *)
Definition exit_code (o : Outcome) : Z :=
  match status o with Ok _ => 0 | Raise _ => 1 end.

Definition SIZE_MESSAGE : string := "Size must be WIDTHxHEIGHT or 'auto'.".

(** [detect_size] *)
Definition detect_size {U : Unicode} (terminal : Z * Z) (size_flag : string)
  : result (Z * Z) :=
  if negb (String.eqb size_flag "auto") then
    let parsed :=
      match PyStr.split1 "x" (PyStr.lower size_flag) with
      | [width_str; height_str] =>
          match PyStr.int_of_str width_str with
          | Ok w =>
              match PyStr.int_of_str height_str with
              | Ok h => Ok (w, h)
              | Raise e => Raise e
              end
          | Raise e => Raise e
          end
      | _ => Raise ValueError
      end in
    match parsed with
    | Raise ValueError => Raise (ArgumentTypeError SIZE_MESSAGE)
    | other => other
    end
  else
    let (width, height) := terminal in
    Ok (Z.max 40 (width - 1), Z.max 15 (height - 1)).

Section Main.

Context {G : Type} {RS : RandomSource G} {LM : Libm} {CK : Clock}
        {U : Unicode}.

(** The text [main] prints for frame number [frame] (from 0). *)
Definition frame_text (total frame : Z) (frame_data : string) : string :=
  (FireworkShow.ESC ++ "[H" ++ frame_data ++ FireworkShow.NL
     ++ FireworkShow.NL ++ "Frame " ++ PyNum.str_of_int (frame + 1) ++ "/"
     ++ PyNum.str_of_int total)%string.

(** The loop of [main] over [range(args.frames)], with its
    [time.sleep(args.interval)] after each frame printed: what it
    printed, what [render] returned, and the state it ended in or the
    exception. *)
Fixpoint show_loop (total : Z) (secs : float) (todo : list Z)
         (w : FireworkShow.world G)
  : list string * list string * result (FireworkShow.world G) :=
  match todo with
  | [] => ([], [], Ok w)
  | frame :: rest =>
      match FireworkShow.step w with
      | Raise e => ([], [], Raise e)
      | Ok (_, w1) =>
          match FireworkShow.render w1 with
          | Raise e => ([], [], Raise e)
          | Ok (frame_data, w2) =>
              match sleep secs with
              | Raise e =>
                  ([frame_text total frame frame_data], [frame_data], Raise e)
              | Ok _ =>
                  let '(out, frs, r) := show_loop total secs rest w2 in
                  (frame_text total frame frame_data :: out,
                   frame_data :: frs, r)
              end
          end
      end
  end.

Definition CLEAR : string := (FireworkShow.ESC ++ "[2J")%string.

Definition GOODBYE : string :=
  (FireworkShow.ESC ++ "[0m" ++ FireworkShow.NL
     ++ "Thanks for watching the show!" ++ FireworkShow.NL
     ++ FireworkShow.NL)%string.

(** The first lines of [main]: the generator is seeded when a seed is
    given, the size is detected and the show is built. *)
Definition startup (env : Env G) (args : Args)
  : result (FireworkShow.world G) :=
  let g := match seed_arg args with
           | Some n => seed n
           | None => startup_rng env
           end in
  match detect_size (terminal_size env) (size args) with
  | Raise e => Raise e
  | Ok (width, height) =>
      Ok (FireworkShow.World (FireworkShow.default width height) g)
  end.

(** [main], from the parsed arguments on. *)
Definition main (env : Env G) (args : Args) : Outcome :=
  match startup env args with
  | Raise e => {| stdout := []; rendered := []; status := Raise e |}
  | Ok w0 =>
      let '(out, frs, r) :=
        show_loop (frames args) (interval args) (PySeq.range (frames args))
                  w0 in
      match r with
      | Raise e =>
          {| stdout := CLEAR :: out; rendered := frs; status := Raise e |}
      | Ok _ =>
          {| stdout := CLEAR :: out ++ [GOODBYE]; rendered := frs;
             status := Ok tt |}
      end
  end.

End Main.

(** ** A concrete generator and a concrete [Libm]

    To run the model on concrete inputs: a linear congruential generator
    that also records the draws made from it, and polynomial stand-ins
    for the two trigonometric functions. *)

Module Lcg.

Inductive call : Type :=
| Uniform (a b : float)
| Randrange (n : Z)
| Randint (a b : Z)
| Choice (n : Z).

Record t : Type := Build { cur : Z; calls : list call }.

Definition next (g : t) (c : call) : t :=
  Build ((1103515245 * cur g + 12345) mod 2147483648) (calls g ++ [c]).

(** The number a draw is made from. *)
Definition bits (g : t) : Z := cur g / 65536.

Definition seed (n : Z) : t := Build (n mod 2147483648) [].

Definition uniform (a b : float) (g : t) : float * t :=
  (if Z.even (bits g) then a else b, next g (Uniform a b)).

Definition randrange (n : Z) (g : t) : Z * t :=
  (bits g mod n, next g (Randrange n)).

Definition randint (a b : Z) (g : t) : Z * t :=
  (a + bits g mod (b - a + 1), next g (Randint a b)).

Definition choice (A : Type) (l : list A) (g : t) : option A * t :=
  (l !! Z.to_nat (bits g mod PySeq.len l), next g (Choice (PySeq.len l))).

End Lcg.

#[export] Instance lcg_source : RandomSource Lcg.t := {
  seed := Lcg.seed;
  uniform := Lcg.uniform;
  randrange := Lcg.randrange;
  randint := Lcg.randint;
  choice := Lcg.choice
}.

(** Truncated Taylor polynomials. *)
Definition poly_libm : Libm := {|
  cos := fun a => (1 - a * a / 2)%float;
  sin := fun a => (a - a * a * a / 6)%float
|}.

(** The draws a program makes from the recording generator, in order. *)
Definition draws_of {A} (m : FireworkShow.M Lcg.t A)
           (w : FireworkShow.world Lcg.t) : list Lcg.call :=
  match m w with
  | Ok (_, w') =>
      drop (length (Lcg.calls (FireworkShow.rng w)))
           (Lcg.calls (FireworkShow.rng w'))
  | Raise _ => []
  end.

(** The first of them, when there is one. *)
Definition first_draw {A} (m : FireworkShow.M Lcg.t A)
           (w : FireworkShow.world Lcg.t) : option Lcg.call :=
  head (draws_of m w).

(** ** What the claims speak of *)

(** A particle of the live collection in good standing: on the canvas and
    with a positive [life]. *)
Definition live_on_canvas (s : FireworkShow.t) (p : Particle.t) : Prop :=
  FireworkShow.on_canvas s p = true /\ 0 < Particle.life p.

(** The states of a show built by [init] and then driven by any sequence
    of successful calls of [spawn_firework], [step] and [render], over
    any state of the generator. *)
Inductive reachable {G : Type} {RS : RandomSource G} {LM : Libm}
          (width height : Z) (gravity damping : float) (sparks : Z)
  : FireworkShow.world G -> Prop :=
| reach_init (g : G) :
    reachable width height gravity damping sparks
      (FireworkShow.World
         (FireworkShow.init width height gravity damping sparks) g)
| reach_spawn w w' :
    reachable width height gravity damping sparks w ->
    FireworkShow.spawn_firework w = Ok (tt, w') ->
    reachable width height gravity damping sparks w'
| reach_step w w' :
    reachable width height gravity damping sparks w ->
    FireworkShow.step w = Ok (tt, w') ->
    reachable width height gravity damping sparks w'
| reach_render w w' frame :
    reachable width height gravity damping sparks w ->
    FireworkShow.render w = Ok (frame, w') ->
    reachable width height gravity damping sparks w'.

(** The band [spawn_firework] draws the centre of an explosion from:
    [0.2 * width .. 0.8 * width] by [0.2 * height .. 0.45 * height]. *)
Definition spawn_band (width height : Z)
  : result (float * float * float * float) :=
  match FireworkShow.mul_float_int 0.2 width,
        FireworkShow.mul_float_int 0.8 width,
        FireworkShow.mul_float_int 0.2 height,
        FireworkShow.mul_float_int 0.45 height with
  | Ok x_lo, Ok x_hi, Ok y_lo, Ok y_hi => Ok (x_lo, x_hi, y_lo, y_hi)
  | Raise e, _, _, _ | _, Raise e, _, _ | _, _, Raise e, _ | _, _, _, Raise e =>
      Raise e
  end.

(** The band is computed, its ends are in order, and it lies on the
    canvas: [0 <= x_lo <= x_hi < width] and [0 <= y_lo <= y_hi < height].
    It is decided by evaluation, and it is the case for every positive
    size below [2^1000]. *)
Definition band_on_canvas (width height : Z) : bool :=
  match spawn_band width height with
  | Ok (x_lo, x_hi, y_lo, y_hi) =>
      PrimFloat.leb x_lo x_hi && PrimFloat.leb y_lo y_hi
      && PyNum.int_le_float 0 x_lo && PyNum.float_lt_int x_hi width
      && PyNum.int_le_float 0 y_lo && PyNum.float_lt_int y_hi height
  | Raise _ => false
  end.

(** The band is computed and its ends are in order. *)
Definition band_in_order (width height : Z) : bool :=
  match spawn_band width height with
  | Ok (x_lo, x_hi, y_lo, y_hi) =>
      PrimFloat.leb x_lo x_hi && PrimFloat.leb y_lo y_hi
  | Raise _ => false
  end.

(** The particle was emitted by an explosion at [(x, y)] with hue shift
    [hue_shift]. *)
Definition emitted {LM : Libm} (x y : float) (hue_shift : Z) (p : Particle.t)
  : Prop :=
  Particle.x p = x /\ Particle.y p = y /\
  18 <= Particle.life p <= 40 /\
  (exists angle speed : float,
      PrimFloat.leb 0.6 speed = true /\ PrimFloat.leb speed 1.6 = true /\
      Particle.vx p = (cos angle * speed)%float /\
      Particle.vy p = (sin angle * speed)%float) /\
  (exists random_index : Z,
      0 <= random_index < PySeq.len PALETTE /\
      PySeq.index PALETTE ((hue_shift + random_index) mod PySeq.len PALETTE)
      = Ok (Particle.colour p)).

(** [s.split("\n")] *)
Fixpoint split_lines (s : string) : list string :=
  match s with
  | EmptyString => [EmptyString]
  | String c rest =>
      if Ascii.eqb c "010" then EmptyString :: split_lines rest
      else match split_lines rest with
           | [] => [String c EmptyString]
           | line :: lines => String c line :: lines
           end
  end.

(** A cell of the canvas as [render] leaves it: blank, or a spark glyph
    with the colour of a live particle. *)
Definition cell_of (s : FireworkShow.t) (cell : string * option Z) : Prop :=
  cell = (FireworkShow.SPACE, None) \/
  exists glyph p,
    In glyph FireworkShow.GLYPHS /\ In p (FireworkShow.particles s) /\
    cell = (glyph, Some (Particle.colour p)).

(** The text of a cell: one space, or the glyph between the colour escape
    and the reset. *)
Definition cell_text (cell : string * option Z) : string :=
  match cell with
  | (glyph, Some c) =>
      (FireworkShow.ESC ++ "[38;5;" ++ PyNum.str_of_int c ++ "m" ++ glyph
         ++ FireworkShow.ESC ++ "[0m")%string
  | (_, None) => " "%string
  end.

(** Both coordinates of the particle are finite floats. *)
Definition finite_position (p : Particle.t) : Prop :=
  PyNum.finite (Particle.x p) = true /\ PyNum.finite (Particle.y p) = true.

(** The text of a row of cells. *)
Definition row_text (row : list (string * option Z)) : string :=
  PySeq.concat (map cell_text row).

(** [n] space characters. *)
Fixpoint spaces (n : nat) : string :=
  match n with
  | O => EmptyString
  | S k => String " " (spaces k)
  end.

(** The text holds no newline character. *)
Fixpoint no_newline (s : string) : bool :=
  match s with
  | EmptyString => true
  | String c rest => negb (Ascii.eqb c "010") && no_newline rest
  end.

(** The two grids of [render] for the show [s]: [height] rows of [width]
    cells each, every cell blank or a glyph with the colour of a live
    particle. *)
Definition grids_ok (s : FireworkShow.t) (canvas : list (list string))
           (colour_map : list (list (option Z))) : Prop :=
  length canvas = Z.to_nat (FireworkShow.height s) /\
  Forall2 (fun row colour_row =>
             length row = Z.to_nat (FireworkShow.width s) /\
             Forall2 (fun char colour => cell_of s (char, colour))
                     row colour_row)
          canvas colour_map.

(** A program that leaves the object [self] as it found it. *)
Definition keeps_self {G A} (m : FireworkShow.M G A) : Prop :=
  forall w a w', m w = Ok (a, w') -> FireworkShow.self w' = FireworkShow.self w.

(** A show of 10 by 10 cells with 5 sparks to an explosion, just built,
    over the recording generator seeded with 7. *)
Definition fresh_world : FireworkShow.world Lcg.t :=
  FireworkShow.World (FireworkShow.init 10 10 0.12 0.92 5) (Lcg.seed 7).

(** The same show after one call of [step]. *)
Definition stepped_world : FireworkShow.world Lcg.t :=
  match FireworkShow.step (LM := poly_libm) fresh_world with
  | Ok (_, w) => w
  | Raise _ => fresh_world
  end.

(** Two runs of two frames on a canvas of 4 by 3 with the seed 5, in
    terminals of different sizes, with different intervals and with the
    generator in different states at start-up. *)
Definition first_run : Env Lcg.t * Args :=
  ({| terminal_size := (80, 24); startup_rng := Lcg.seed 0 |},
   {| frames := 2; interval := 0.06; size := "4x3"; seed_arg := Some 5 |}).

Definition second_run : Env Lcg.t * Args :=
  ({| terminal_size := (132, 50); startup_rng := Lcg.seed 99 |},
   {| frames := 2; interval := 0.5; size := "4x3"; seed_arg := Some 5 |}).

(** The particle of the scenario: at [(5.0, 5.0)], at rest, with one
    frame of life left. *)
Definition scenario_particle (colour : Z) : Particle.t :=
  Particle.Build 5.0 5.0 0 0 1 colour.

(** The exact value of a float, scaled by [2^1074] to an integer: no
    finite binary64 number has an exponent below [-1074]. *)
Definition scaled (x : spec_float) : Z :=
  match x with
  | S754_finite s m e => PyNum.signed s m * 2 ^ (e + 1074)
  | _ => 0
  end.

(** ** The rest of the program

    What the theorems on the whole run, on the particle population and
    on the cells of a frame speak of. *)

(** [k] calls of [Particle.step] on one particle, one after the other:
    the particle after them. *)
Fixpoint step_times (k : nat) (p : Particle.t) (gravity damping : float)
  : Particle.t :=
  match k with
  | O => p
  | S k' => step_times k' (fst (Particle.step p gravity damping))
                       gravity damping
  end.

(** The states the loop of [main] drives a new show through: [n] calls
    of [step] that returned, with calls of [render] that returned in
    between, over any state of the generator. *)
Inductive driven {G : Type} {RS : RandomSource G} {LM : Libm}
          (width height : Z) (gravity damping : float) (sparks : Z)
  : nat -> FireworkShow.world G -> Prop :=
| driven_init (g : G) :
    driven width height gravity damping sparks 0
      (FireworkShow.World
         (FireworkShow.init width height gravity damping sparks) g)
| driven_step n w w' :
    driven width height gravity damping sparks n w ->
    FireworkShow.step w = Ok (tt, w') ->
    driven width height gravity damping sparks (S n) w'
| driven_render n w w' frame :
    driven width height gravity damping sparks n w ->
    FireworkShow.render w = Ok (frame, w') ->
    driven width height gravity damping sparks n w'.

(** The number of particles with more than [j] frames of life left. *)
Definition count_above (j : Z) (ps : list Particle.t) : Z :=
  Z.of_nat (length (List.filter (fun p => j <? Particle.life p) ps)).

(** The cell [render] computes for the particle is row [i], column [j]:
    [int(p.y) == i] and [int(p.x) == j]. *)
Definition lands (p : Particle.t) (i j : Z) : bool :=
  match PyNum.int_of_float (Particle.y p),
        PyNum.int_of_float (Particle.x p) with
  | Ok iy, Ok ix => (iy =? i) && (ix =? j)
  | _, _ => false
  end.

(** The colour of the last particle of [ps] that lands in row [i], column
    [j], from [acc] when there is none. *)
Definition paint (acc : option Z) (ps : list Particle.t) (i j : Z)
  : option Z :=
  fold_left (fun c p => if lands p i j then Some (Particle.colour p) else c)
            ps acc.

(** The test of [render]: the cell of the particle is on the canvas. *)
Definition plotted (s : FireworkShow.t) (p : Particle.t) : bool :=
  match PyNum.int_of_float (Particle.x p),
        PyNum.int_of_float (Particle.y p) with
  | Ok ix, Ok iy =>
      (0 <=? ix) && (ix <? FireworkShow.width s)
      && ((0 <=? iy) && (iy <? FireworkShow.height s))
  | _, _ => false
  end.

(** [grid[i][j]] for indices that are not negative. *)
Definition cell_at {A} (grid : list (list A)) (i j : Z) : option A :=
  match grid !! Z.to_nat i with
  | Some row => row !! Z.to_nat j
  | None => None
  end.

(** The generator after [n] draws of a glyph. *)
Definition glyph_draws {G : Type} {RS : RandomSource G} (n : nat) (g : G)
  : G :=
  Nat.iter n (fun g => snd (choice FireworkShow.GLYPHS g)) g.

(** A clock that takes the delays from [0] on and raises [ValueError] on
    the others, NaN among them. *)
Definition strict_clock : Clock :=
  {| sleep := fun secs =>
       if PrimFloat.leb 0 secs then Ok tt else Raise ValueError |}.

(** An interpreter whose database holds no cased letter, no digit and
    no white space outside ASCII. *)
Definition plain_unicode : Unicode :=
  {| wide_lower := fun s => s; wide_int := fun _ => None |}.

(** A show of 10 by 10 cells with no spark to an explosion, after one
    call of [step]. *)
Definition quiet_world : FireworkShow.world Lcg.t :=
  match FireworkShow.step (LM := poly_libm)
          (FireworkShow.World (FireworkShow.init 10 10 0.12 0.92 0)
                              (Lcg.seed 7)) with
  | Ok (_, w) => w
  | Raise _ =>
      FireworkShow.World (FireworkShow.init 10 10 0.12 0.92 0) (Lcg.seed 7)
  end.

(** A particle at rest with three frames of life. *)
Definition short_lived : Particle.t := Particle.Build 5.0 5.0 0 0 3 196.

(** A run of two frames with the size of the terminal, unseeded. *)
Definition auto_run : Env Lcg.t * Args :=
  ({| terminal_size := (80, 24); startup_rng := Lcg.seed 0 |},
   {| frames := 2; interval := 0.06; size := "auto"; seed_arg := None |}).

(** Runs on a canvas of 4 by 3: one with no frame to show, one with a
    negative delay. *)
Definition empty_run : Env Lcg.t * Args :=
  ({| terminal_size := (80, 24); startup_rng := Lcg.seed 0 |},
   {| frames := 0; interval := 0.06; size := "4x3"; seed_arg := Some 5 |}).

Definition hasty_run : Env Lcg.t * Args :=
  ({| terminal_size := (80, 24); startup_rng := Lcg.seed 0 |},
   {| frames := 2; interval := (-1)%float; size := "4x3";
      seed_arg := Some 5 |}).

(** * Proofs *)

(** ** The order of floats and their exact values *)

Section FloatOrder.

Lemma compare_scale (a b k : Z) :
  0 < k -> (a * k ?= b * k) = (a ?= b).
Proof.
  intros Hk. destruct (Z.compare_spec a b);
    [apply Z.compare_eq_iff | apply Z.compare_lt_iff
     | apply Z.compare_gt_iff]; nia.
Qed.

Lemma digits2_pos_bounds (m : positive) :
  2 ^ (Z.pos (digits2_pos m) - 1) <= Z.pos m < 2 ^ Z.pos (digits2_pos m).
Proof.
  induction m as [p IH | p IH |]; cbn [digits2_pos].
  - rewrite Pos2Z.inj_succ.
    replace (Z.succ (Z.pos (digits2_pos p)) - 1)
      with (Z.succ (Z.pos (digits2_pos p) - 1)) by lia.
    rewrite !Z.pow_succ_r by lia. lia.
  - rewrite Pos2Z.inj_succ.
    replace (Z.succ (Z.pos (digits2_pos p)) - 1)
      with (Z.succ (Z.pos (digits2_pos p) - 1)) by lia.
    rewrite !Z.pow_succ_r by lia. lia.
  - cbn. lia.
Qed.

(** A canonical mantissa has at most 53 digits, its exponent is at
    least [-1074], and above that exponent it has exactly 53. *)
Lemma bounded_inv (m : positive) (e : Z) :
  bounded prec emax m e = true ->
  -1074 <= e /\ Z.pos m < 2 ^ 53 /\ (-1074 < e -> 2 ^ 52 <= Z.pos m).
Proof.
  unfold bounded, canonical_mantissa, fexp, SpecFloat.emin, prec, emax.
  rewrite andb_true_iff, Z.eqb_eq. intros [Hc _].
  pose proof (digits2_pos_bounds m) as [Hlo Hhi].
  set (d := Z.pos (digits2_pos m)) in *.
  assert (Hd : 0 < d) by (unfold d; lia).
  split; [lia |]. split.
  - assert (d <= 53) by lia.
    eapply Z.lt_le_trans; [exact Hhi |].
    apply Z.pow_le_mono_r; lia.
  - intros He. assert (d = 53) as Hd53 by lia.
    rewrite Hd53 in Hlo. exact Hlo.
Qed.

Lemma scaled_finite_lt (m1 m2 : positive) (e1 e2 : Z) :
  bounded prec emax m1 e1 = true -> bounded prec emax m2 e2 = true ->
  e1 < e2 ->
  Z.pos m1 * 2 ^ (e1 + 1074) < Z.pos m2 * 2 ^ (e2 + 1074).
Proof.
  intros H1 H2 He.
  destruct (bounded_inv _ _ H1) as (Hmin1 & Hhi1 & _).
  destruct (bounded_inv _ _ H2) as (_ & _ & Hlo2).
  specialize (Hlo2 ltac:(lia)).
  assert (Hp1 : 0 < 2 ^ (e1 + 1074)) by (apply Z.pow_pos_nonneg; lia).
  assert (Hstep : 2 ^ 53 * 2 ^ (e1 + 1074) <= 2 ^ 52 * 2 ^ (e2 + 1074)).
  { rewrite <- !Z.pow_add_r by lia. apply Z.pow_le_mono_r; lia. }
  assert (Hp2 : 0 < 2 ^ (e2 + 1074)) by (apply Z.pow_pos_nonneg; lia).
  nia.
Qed.

(** On valid floats that are not NaN or infinite, the order of the
    floats is the order of their exact values. *)
Lemma SFcompare_scaled (x y : spec_float) :
  valid_binary x = true -> valid_binary y = true ->
  match x, y with
  | (S754_zero _ | S754_finite _ _ _), (S754_zero _ | S754_finite _ _ _) =>
      SFcompare x y = Some (scaled x ?= scaled y)
  | _, _ => True
  end.
Proof.
  intros Hx Hy.
  destruct x as [sx | sx | | sx mx ex], y as [sy | sy | | sy my ey];
    try exact I; cbn [SFcompare scaled].
  - reflexivity.
  - cbn in Hy. destruct (bounded_inv _ _ Hy) as (Hmin & _ & _).
    assert (0 < 2 ^ (ey + 1074)) by (apply Z.pow_pos_nonneg; lia).
    f_equal. symmetry.
    destruct sy; cbn [PyNum.signed];
      [apply Z.compare_gt_iff | apply Z.compare_lt_iff]; nia.
  - cbn in Hx. destruct (bounded_inv _ _ Hx) as (Hmin & _ & _).
    assert (0 < 2 ^ (ex + 1074)) by (apply Z.pow_pos_nonneg; lia).
    f_equal. symmetry.
    destruct sx; cbn [PyNum.signed];
      [apply Z.compare_lt_iff | apply Z.compare_gt_iff]; nia.
  - cbn in Hx, Hy.
    destruct (bounded_inv _ _ Hx) as (Hminx & _ & _).
    destruct (bounded_inv _ _ Hy) as (Hminy & _ & _).
    assert (Hpx : 0 < 2 ^ (ex + 1074)) by (apply Z.pow_pos_nonneg; lia).
    assert (Hpy : 0 < 2 ^ (ey + 1074)) by (apply Z.pow_pos_nonneg; lia).
    f_equal. symmetry.
    destruct sx, sy; cbn [PyNum.signed].
    + (* both negative *)
      destruct (Z.compare_spec ex ey) as [He | He | He].
      * subst ey. rewrite Pos.compare_cont_spec. cbn [Pos.switch_Eq].
        destruct (Pos.compare_spec mx my) as [Hm | Hm | Hm];
          cbn [CompOpp];
          [apply Z.compare_eq_iff | apply Z.compare_gt_iff
           | apply Z.compare_lt_iff]; nia.
      * pose proof (scaled_finite_lt _ _ _ _ Hx Hy He).
        apply Z.compare_gt_iff. lia.
      * pose proof (scaled_finite_lt _ _ _ _ Hy Hx He).
        apply Z.compare_lt_iff. lia.
    + apply Z.compare_lt_iff. nia.
    + apply Z.compare_gt_iff. nia.
    + (* both positive *)
      destruct (Z.compare_spec ex ey) as [He | He | He].
      * subst ey. rewrite Pos.compare_cont_spec. cbn [Pos.switch_Eq].
        destruct (Pos.compare_spec mx my) as [Hm | Hm | Hm];
          [apply Z.compare_eq_iff | apply Z.compare_lt_iff
           | apply Z.compare_gt_iff]; nia.
      * pose proof (scaled_finite_lt _ _ _ _ Hx Hy He).
        apply Z.compare_lt_iff. lia.
      * pose proof (scaled_finite_lt _ _ _ _ Hy Hx He).
        apply Z.compare_gt_iff. lia.
Qed.

(** The mixed comparison compares the exact value with the integer. *)
Lemma float_cmp_int_scaled (f : float) (n : Z) :
  match Prim2SF f with
  | S754_zero _ | S754_finite _ _ _ =>
      PyNum.float_cmp_int f n = Some (scaled (Prim2SF f) ?= n * 2 ^ 1074)
  | _ => True
  end.
Proof.
  pose proof (Prim2SF_valid f) as Hv. unfold PyNum.float_cmp_int.
  destruct (Prim2SF f) as [s | s | | s m e]; try exact I; cbn [scaled].
  - f_equal. assert (0 < 2 ^ 1074) by (apply Z.pow_pos_nonneg; lia).
    destruct (Z.compare_spec 0 n); symmetry;
      [apply Z.compare_eq_iff | apply Z.compare_lt_iff
       | apply Z.compare_gt_iff]; nia.
  - cbn in Hv. destruct (bounded_inv _ _ Hv) as (Hmin & _ & _).
    f_equal. destruct (Z.leb_spec 0 e) as [He | He].
    + rewrite Z.pow_add_r by lia.
      rewrite Z.mul_assoc.
      symmetry. apply compare_scale. apply Z.pow_pos_nonneg; lia.
    + replace (n * 2 ^ 1074) with (n * 2 ^ (- e) * 2 ^ (e + 1074)).
      * symmetry. apply compare_scale. apply Z.pow_pos_nonneg; lia.
      * rewrite <- Z.mul_assoc, <- Z.pow_add_r by lia.
        f_equal. f_equal. lia.
Qed.

End FloatOrder.

Section FloatBounds.

Lemma compare_le_lt (u v k : Z) :
  match u ?= v with Gt => false | _ => true end = true ->
  match v ?= k with Lt => true | _ => false end = true ->
  match u ?= k with Lt => true | _ => false end = true.
Proof.
  destruct (Z.compare_spec u v), (Z.compare_spec v k),
    (Z.compare_spec u k); intros; try discriminate; try reflexivity; lia.
Qed.

Lemma compare_le_ge (u v k : Z) :
  match u ?= v with Gt => false | _ => true end = true ->
  match u ?= k with Lt => false | _ => true end = true ->
  match v ?= k with Lt => false | _ => true end = true.
Proof.
  destruct (Z.compare_spec u v), (Z.compare_spec u k),
    (Z.compare_spec v k); intros; try discriminate; try reflexivity; lia.
Qed.

(** [x <= b] and [b < n] give [x < n]. *)
Lemma leb_float_lt_int (x b : float) (n : Z) :
  PrimFloat.leb x b = true -> PyNum.float_lt_int b n = true ->
  PyNum.float_lt_int x n = true.
Proof.
  rewrite leb_spec. unfold SFleb. intros Hle Hlt.
  pose proof (Prim2SF_valid x) as Hvx. pose proof (Prim2SF_valid b) as Hvb.
  pose proof (SFcompare_scaled _ _ Hvx Hvb) as Hc.
  pose proof (float_cmp_int_scaled x n) as Hx.
  pose proof (float_cmp_int_scaled b n) as Hb.
  unfold PyNum.float_lt_int in *.
  destruct (Prim2SF x) as [sx | [|] | | sx mx ex] eqn:Ex;
    destruct (Prim2SF b) as [sb | [|] | | sb mb eb] eqn:Eb;
    try discriminate Hle;
    try (unfold PyNum.float_cmp_int in *; rewrite ?Ex, ?Eb in *;
         first [discriminate Hlt | reflexivity]).
  all: rewrite Hc in Hle; rewrite Hx; rewrite Hb in Hlt.
  all: match type of Hle with
       | match ?u ?= ?v with Gt => _ | _ => _ end = _ =>
           exact (compare_le_lt u v _ Hle Hlt)
       end.
Qed.

(** [a <= x] and [n <= a] give [n <= x]. *)
Lemma leb_float_ge_int (a x : float) (n : Z) :
  PrimFloat.leb a x = true -> PyNum.float_ge_int a n = true ->
  PyNum.float_ge_int x n = true.
Proof.
  rewrite leb_spec. unfold SFleb. intros Hle Hge.
  pose proof (Prim2SF_valid a) as Hva. pose proof (Prim2SF_valid x) as Hvx.
  pose proof (SFcompare_scaled _ _ Hva Hvx) as Hc.
  pose proof (float_cmp_int_scaled a n) as Ha.
  pose proof (float_cmp_int_scaled x n) as Hx.
  unfold PyNum.float_ge_int in *.
  destruct (Prim2SF a) as [sa | [|] | | sa ma ea] eqn:Ea;
    destruct (Prim2SF x) as [sx | [|] | | sx mx ex] eqn:Ex;
    try discriminate Hle;
    try (unfold PyNum.float_cmp_int in *; rewrite ?Ea, ?Ex in *;
         first [discriminate Hge | reflexivity]).
  all: rewrite Hc in Hle; rewrite Hx; rewrite Ha in Hge.
  all: match type of Hle with
       | match ?u ?= ?v with Gt => _ | _ => _ end = _ =>
           exact (compare_le_ge u v _ Hle Hge)
       end.
Qed.

(** A float that is neither a NaN nor an infinity compares with
    itself. *)
Lemma leb_refl_of_leb (a b : float) :
  PrimFloat.leb a b = true ->
  PrimFloat.leb a a = true /\ PrimFloat.leb b b = true.
Proof.
  rewrite !leb_spec. unfold SFleb.
  destruct (Prim2SF a) as [sa | [|] | | [|] ma ea];
    destruct (Prim2SF b) as [sb | [|] | | [|] mb eb];
    cbn [SFcompare]; intros Hle; try discriminate Hle;
    rewrite ?Z.compare_refl, ?Pos.compare_cont_refl; split; reflexivity.
Qed.

(** A float between two integers is finite. *)
Lemma between_ints_finite (x : float) (lo hi : Z) :
  PyNum.float_ge_int x lo = true -> PyNum.float_lt_int x hi = true ->
  PyNum.finite x = true.
Proof.
  unfold PyNum.float_ge_int, PyNum.float_lt_int, PyNum.float_cmp_int,
    PyNum.finite.
  destruct (Prim2SF x) as [s | [|] | | s m e]; intros Hge Hlt;
    try discriminate; reflexivity.
Qed.

(** [int] of a finite float returns. *)
Lemma int_of_float_finite (x : float) :
  PyNum.finite x = true -> exists n, PyNum.int_of_float x = Ok n.
Proof.
  unfold PyNum.finite, PyNum.int_of_float.
  destruct (Prim2SF x) as [s | s | | s m e]; intros Hf;
    try discriminate; eexists; reflexivity.
Qed.

End FloatBounds.

(** ** Rounding to binary64

    What [binary_round_aux] of the specification of the floats does to a
    positive mantissa of 53 digits or more, and what follows for the
    conversion of an integer and for a product. *)

Section Rounding.

Lemma digits2_pos_unique (p : positive) (k : Z) :
  2 ^ (k - 1) <= Z.pos p < 2 ^ k -> Z.pos (digits2_pos p) = k.
Proof.
  intros [Hlo Hhi]. pose proof (digits2_pos_bounds p) as [Dlo Dhi].
  set (d := Z.pos (digits2_pos p)) in *.
  assert (Hd : 0 < d) by (unfold d; lia).
  destruct (Z.lt_trichotomy d k) as [Hlt | [Heq | Hgt]]; [| exact Heq |].
  - assert (2 ^ d <= 2 ^ (k - 1)) by (apply Z.pow_le_mono_r; lia). lia.
  - assert (0 <= k).
    { destruct (Z.lt_ge_cases k 0) as [Hneg |]; [| lia].
      rewrite (Z.pow_neg_r 2 k Hneg) in Hhi. lia. }
    assert (2 ^ k <= 2 ^ (d - 1)) by (apply Z.pow_le_mono_r; lia). lia.
Qed.

Lemma shr_1_m (mrs : shr_record) :
  0 <= shr_m mrs -> shr_m (shr_1 mrs) = shr_m mrs / 2.
Proof.
  destruct mrs as [m r s]. cbn [shr_m]. intros Hm.
  destruct m as [| [p | p |] |]; cbn [shr_1 shr_m].
  - reflexivity.
  - apply (Z.div_unique _ _ _ 1); lia.
  - apply (Z.div_unique _ _ _ 0); lia.
  - reflexivity.
  - lia.
Qed.

Lemma iter_pos_shr_m (n : positive) (mrs : shr_record) :
  0 <= shr_m mrs ->
  shr_m (SpecFloat.iter_pos shr_1 n mrs) = shr_m mrs / 2 ^ Z.pos n.
Proof.
  revert mrs. induction n as [n IH | n IH |]; intros mrs Hm; cbn [SpecFloat.iter_pos].
  - assert (Hp : 0 < 2 ^ Z.pos n) by (apply Z.pow_pos_nonneg; lia).
    assert (H1 : 0 <= shr_m (shr_1 mrs)).
    { rewrite shr_1_m by exact Hm. apply Z.div_pos; lia. }
    assert (H2 : 0 <= shr_m (SpecFloat.iter_pos shr_1 n (shr_1 mrs))).
    { rewrite IH by exact H1. apply Z.div_pos; [exact H1 | exact Hp]. }
    rewrite IH by exact H2. rewrite IH by exact H1.
    rewrite shr_1_m by exact Hm.
    rewrite !Z.div_div by lia. f_equal.
    replace (Z.pos n~1) with (1 + Z.pos n + Z.pos n) by lia.
    rewrite !Z.pow_add_r by lia. change (2 ^ 1) with 2. ring.
  - assert (Hp : 0 < 2 ^ Z.pos n) by (apply Z.pow_pos_nonneg; lia).
    assert (H2 : 0 <= shr_m (SpecFloat.iter_pos shr_1 n mrs)).
    { rewrite IH by exact Hm. apply Z.div_pos; [exact Hm | exact Hp]. }
    rewrite IH by exact H2. rewrite IH by exact Hm.
    rewrite !Z.div_div by lia. f_equal.
    replace (Z.pos n~0) with (Z.pos n + Z.pos n) by lia.
    rewrite Z.pow_add_r by lia. reflexivity.
  - rewrite shr_1_m by exact Hm. reflexivity.
Qed.

Lemma shr_record_of_loc_m (m : Z) (l : location) :
  shr_m (shr_record_of_loc m l) = m.
Proof. destruct l as [| [| |]]; reflexivity. Qed.

(** Shifting a mantissa of [53 + n] digits down to 53. *)
Lemma shr_fexp_m (p : positive) (e : Z) (l : location) :
  53 <= Z.pos (digits2_pos p) ->
  -1074 <= Z.pos (digits2_pos p) + e - 53 ->
  shr_m (fst (shr_fexp prec emax (Z.pos p) e l))
  = Z.pos p / 2 ^ (Z.pos (digits2_pos p) - 53) /\
  snd (shr_fexp prec emax (Z.pos p) e l) = e + (Z.pos (digits2_pos p) - 53).
Proof.
  intros Hd He. unfold shr_fexp, fexp, SpecFloat.emin, prec, emax.
  cbn [Zdigits2]. set (d := Z.pos (digits2_pos p)) in *.
  replace (Z.max (d + e - 53) (3 - 1024 - 53) - e) with (d - 53) by lia.
  unfold shr. destruct (d - 53) as [| n | n] eqn:Hn; try lia.
  - cbn [fst snd]. rewrite shr_record_of_loc_m, Z.div_1_r. split; [reflexivity | lia].
  - cbn [fst snd]. rewrite iter_pos_shr_m; rewrite shr_record_of_loc_m; [| lia].
    split; reflexivity.
Qed.

Lemma round_nearest_even_cases (m : Z) (l : location) :
  round_nearest_even m l = m \/ round_nearest_even m l = m + 1.
Proof.
  destruct l as [| [| |]]; cbn [round_nearest_even]; auto.
  destruct (Z.even m); auto.
Qed.

(** Rounding a positive mantissa of at least 53 digits, away from the
    subnormal numbers and from overflow: the result is a normal number
    whose mantissa, put back at the exponent of the dropped digits, is
    the quotient or the quotient plus one. *)
Lemma binary_round_aux_normal (sx : bool) (p : positive) (e : Z)
      (l : location) :
  let n := Z.pos (digits2_pos p) - 53 in
  0 <= n -> -1074 <= e -> e + n + 1 <= 971 ->
  exists (m' : positive) (e' : Z),
    binary_round_aux prec emax sx (Z.pos p) e l = S754_finite sx m' e' /\
    2 ^ 52 <= Z.pos m' < 2 ^ 53 /\
    e + n <= e' <= e + n + 1 /\
    Z.pos p / 2 ^ n <= Z.pos m' * 2 ^ (e' - (e + n)) <= Z.pos p / 2 ^ n + 1.
Proof.
  intros n Hn He Hmax. unfold binary_round_aux.
  destruct (shr_fexp_m p e l ltac:(lia) ltac:(lia)) as [Hm1 He1].
  destruct (shr_fexp prec emax (Z.pos p) e l) as [mrs1 e1].
  cbn [fst snd] in Hm1, He1. fold n in Hm1, He1.
  pose proof (digits2_pos_bounds p) as [Dlo Dhi].
  assert (Hpn : 0 < 2 ^ n) by (apply Z.pow_pos_nonneg; lia).
  assert (Hq : 2 ^ 52 <= Z.pos p / 2 ^ n < 2 ^ 53).
  { split.
    - apply Z.div_le_lower_bound; [exact Hpn |].
      rewrite <- Z.pow_add_r by lia.
      replace (n + 52) with (Z.pos (digits2_pos p) - 1) by lia. exact Dlo.
    - apply Z.div_lt_upper_bound; [exact Hpn |].
      rewrite <- Z.pow_add_r by lia.
      replace (n + 53) with (Z.pos (digits2_pos p)) by lia. exact Dhi. }
  set (q := Z.pos p / 2 ^ n) in *.
  pose proof (round_nearest_even_cases (shr_m mrs1) (loc_of_shr_record mrs1))
    as Hr.
  set (r := round_nearest_even (shr_m mrs1) (loc_of_shr_record mrs1)) in *.
  rewrite Hm1 in Hr. fold q in Hr.
  assert (Hrq : q <= r <= q + 1) by lia.
  assert (H52 : 0 < 2 ^ 52) by reflexivity.
  assert (H53 : 2 ^ 53 = 2 * 2 ^ 52) by reflexivity.
  clearbody r. destruct r as [| r |]; try lia.
  destruct (Z.eq_dec (Z.pos r) (2 ^ 53)) as [Hcarry | Hnone].
  - assert (Hd : Z.pos (digits2_pos r) = 54).
    { apply digits2_pos_unique. rewrite Hcarry.
      change (54 - 1) with 53. split; [lia |].
      apply Z.pow_lt_mono_r; lia. }
    destruct (shr_fexp_m r e1 loc_Exact ltac:(lia) ltac:(lia)) as [Hm2 He2].
    destruct (shr_fexp prec emax (Z.pos r) e1 loc_Exact) as [mrs2 e2].
    cbn [fst snd] in Hm2, He2. rewrite Hd in Hm2, He2.
    rewrite Hcarry in Hm2. change (2 ^ 53 / 2 ^ (54 - 53)) with (2 ^ 52) in Hm2.
    rewrite Hm2. change (2 ^ 52) with (Z.pos (2 ^ 52)%positive).
    destruct (Z.leb_spec e2 (emax - prec)) as [_ | Hover];
      [| unfold emax, prec in Hover; lia].
    exists (2 ^ 52)%positive, e2. split; [reflexivity |].
    split; [split; [reflexivity | reflexivity] |].
    split; [lia |].
    replace (e2 - (e + n)) with 1 by lia.
    change (Z.pos (2 ^ 52) * 2 ^ 1) with (2 ^ 53). lia.
  - assert (Hd : Z.pos (digits2_pos r) = 53).
    { apply digits2_pos_unique. change (53 - 1) with 52. lia. }
    destruct (shr_fexp_m r e1 loc_Exact ltac:(lia) ltac:(lia)) as [Hm2 He2].
    destruct (shr_fexp prec emax (Z.pos r) e1 loc_Exact) as [mrs2 e2].
    cbn [fst snd] in Hm2, He2. rewrite Hd in Hm2, He2.
    change (2 ^ (53 - 53)) with 1 in Hm2. rewrite Z.div_1_r in Hm2.
    rewrite Hm2.
    destruct (Z.leb_spec e2 (emax - prec)) as [_ | Hover];
      [| unfold emax, prec in Hover; lia].
    exists r, e2. split; [reflexivity |].
    split; [lia |]. split; [lia |].
    replace (e2 - (e + n)) with 0 by lia. rewrite Z.mul_1_r. lia.
Qed.

(** The same, on exact values scaled by [2^1074]: the rounded value is
    within [2^-52] of the exact one, relatively. *)
Lemma binary_round_aux_error (sx : bool) (p : positive) (e : Z)
      (l : location) :
  let n := Z.pos (digits2_pos p) - 53 in
  0 <= n -> -1074 <= e -> e + n + 1 <= 971 ->
  exists (m' : positive) (e' : Z),
    binary_round_aux prec emax sx (Z.pos p) e l = S754_finite sx m' e' /\
    2 ^ 52 <= Z.pos m' < 2 ^ 53 /\
    e + n <= e' <= e + n + 1 /\
    (Z.pos m' * 2 ^ (e' + 1074) - Z.pos p * 2 ^ (e + 1074)) * 2 ^ 52
    <= Z.pos p * 2 ^ (e + 1074) /\
    (Z.pos p * 2 ^ (e + 1074) - Z.pos m' * 2 ^ (e' + 1074)) * 2 ^ 52
    <= Z.pos p * 2 ^ (e + 1074).
Proof.
  intros n Hn He Hmax.
  destruct (binary_round_aux_normal sx p e l Hn He Hmax)
    as (m' & e' & Hround & Hm' & He' & Hr).
  fold n in He', Hr.
  exists m', e'. split; [exact Hround |]. split; [exact Hm' |].
  split; [exact He' |].
  set (R := Z.pos m' * 2 ^ (e' - (e + n))) in *.
  set (q := Z.pos p / 2 ^ n) in *.
  set (N := 2 ^ n). set (E := 2 ^ (e + 1074)).
  assert (HN : 0 < N) by (apply Z.pow_pos_nonneg; lia).
  assert (HE : 0 < E) by (apply Z.pow_pos_nonneg; lia).
  assert (HV : Z.pos m' * 2 ^ (e' + 1074) = R * (N * E)).
  { unfold R, N, E. rewrite <- Z.mul_assoc. f_equal.
    rewrite <- !Z.pow_add_r by lia. f_equal. lia. }
  pose proof (Z.div_mod (Z.pos p) N ltac:(lia)) as Hdiv.
  pose proof (Z.mod_pos_bound (Z.pos p) N HN) as Hrho.
  change (Z.pos p / N) with q in Hdiv. set (rho := Z.pos p mod N) in *.
  assert (Hq : 2 ^ 52 <= q).
  { unfold q. apply Z.div_le_lower_bound; [exact HN |].
    unfold N. rewrite <- Z.pow_add_r by lia.
    replace (n + 52) with (Z.pos (digits2_pos p) - 1) by (unfold n; lia).
    apply digits2_pos_bounds. }
  rewrite HV. rewrite Hdiv at 1 2 3 4.
  replace ((N * q + rho) * E) with (q * (N * E) + rho * E) by ring.
  assert (HqA : 2 ^ 52 * (N * E) <= q * (N * E)).
  { apply Z.mul_le_mono_nonneg_r; [| exact Hq].
    apply Z.lt_le_incl, Z.mul_pos_pos; assumption. }
  assert (HrE : 0 <= rho * E < N * E).
  { split; [apply Z.mul_nonneg_nonneg; lia |].
    apply Z.mul_lt_mono_pos_r; lia. }
  assert (HR : R = q \/ R = q + 1) by lia.
  destruct HR as [-> | ->].
  - generalize dependent (q * (N * E)). generalize dependent (rho * E).
    generalize dependent (N * E). change (2 ^ 52) with 4503599627370496.
    intros. lia.
  - replace ((q + 1) * (N * E)) with (q * (N * E) + N * E) by ring.
    generalize dependent (q * (N * E)). generalize dependent (rho * E).
    generalize dependent (N * E). change (2 ^ 52) with 4503599627370496.
    intros. lia.
Qed.

Lemma digits2_pos_range (p : positive) (a b : Z) :
  0 <= a -> 2 ^ a <= Z.pos p < 2 ^ b -> a < Z.pos (digits2_pos p) <= b.
Proof.
  intros Ha [Hlo Hhi]. pose proof (digits2_pos_bounds p) as [Dlo Dhi].
  set (d := Z.pos (digits2_pos p)) in *.
  assert (Hd : 0 < d) by (unfold d; lia).
  split.
  - destruct (Z.lt_ge_cases a d) as [Hlt | Hge]; [exact Hlt |].
    assert (2 ^ d <= 2 ^ a) by (apply Z.pow_le_mono_r; lia). lia.
  - destruct (Z.le_gt_cases d b) as [Hle | Hgt]; [exact Hle |].
    assert (0 <= b).
    { destruct (Z.lt_ge_cases b 0) as [Hneg |]; [| lia].
      rewrite (Z.pow_neg_r 2 b Hneg) in Hhi. lia. }
    assert (2 ^ b <= 2 ^ (d - 1)) by (apply Z.pow_le_mono_r; lia). lia.
Qed.

Lemma normal_mantissa_valid (m : positive) (e : Z) :
  2 ^ 52 <= Z.pos m < 2 ^ 53 -> -1074 <= e <= 971 ->
  valid_binary (S754_finite false m e) = true.
Proof.
  intros Hm He. cbn [SpecFloat.valid_binary].
  unfold bounded, canonical_mantissa, fexp, SpecFloat.emin, emax, prec.
  rewrite (digits2_pos_unique m 53) by (change (53 - 1) with 52; exact Hm).
  apply andb_true_iff. split; [apply Z.eqb_eq | apply Z.leb_le]; lia.
Qed.

(** The product of two positive normal floats, away from underflow and
    overflow: a positive normal float within [2^-52] of the exact
    product, relatively. *)
Lemma mul_error (c f : float) (mc mf : positive) (ec ef : Z) :
  Prim2SF c = S754_finite false mc ec ->
  Prim2SF f = S754_finite false mf ef ->
  2 ^ 52 <= Z.pos mc < 2 ^ 53 -> 2 ^ 52 <= Z.pos mf < 2 ^ 53 ->
  -1074 <= ec + ef -> ec + ef + 54 <= 971 ->
  exists (m' : positive) (e' : Z),
    Prim2SF (c * f) = S754_finite false m' e' /\
    let V := Z.pos m' * 2 ^ (e' + 1074) in
    let X := Z.pos mc * Z.pos mf * 2 ^ (ec + ef + 1074) in
    (V - X) * 2 ^ 52 <= X /\ (X - V) * 2 ^ 52 <= X.
Proof.
  intros Hc Hf Hmc Hmf Hlo Hhi.
  rewrite mul_spec. unfold SF64mul, SFmul. rewrite Hc, Hf. cbn [xorb].
  assert (Hp : 2 ^ 104 <= Z.pos (mc * mf) < 2 ^ 106).
  { rewrite Pos2Z.inj_mul.
    change (2 ^ 104) with (2 ^ 52 * 2 ^ 52).
    change (2 ^ 106) with (2 ^ 53 * 2 ^ 53).
    assert (0 < 2 ^ 52) by reflexivity. split.
    - apply Z.mul_le_mono_nonneg; lia.
    - apply Z.mul_lt_mono_nonneg; lia. }
  pose proof (digits2_pos_range (mc * mf) 104 106 ltac:(lia) Hp) as Hd.
  destruct (binary_round_aux_error false (mc * mf) (ec + ef) loc_Exact)
    as (m' & e' & Hround & _ & _ & Herr); try lia.
  exists m', e'. split; [exact Hround |].
  rewrite Pos2Z.inj_mul in Herr. exact Herr.
Qed.

(** The conversion of a positive integer below [2^1000]: a positive
    normal float within [2^-52] of the integer, relatively. *)
Lemma float_of_int_error (w : Z) :
  0 < w < 2 ^ 1000 ->
  exists (fw : float) (mw : positive) (ew : Z),
    PyNum.float_of_int w = Ok fw /\
    Prim2SF fw = S754_finite false mw ew /\
    2 ^ 52 <= Z.pos mw < 2 ^ 53 /\ -52 <= ew <= 948 /\
    (Z.pos mw * 2 ^ (ew + 1074) - w * 2 ^ 1074) * 2 ^ 52 <= w * 2 ^ 1074 /\
    (w * 2 ^ 1074 - Z.pos mw * 2 ^ (ew + 1074)) * 2 ^ 52 <= w * 2 ^ 1074.
Proof.
  intros [Hpos Hbig]. destruct w as [| p |]; try lia.
  pose proof (digits2_pos_bounds p) as [Dlo Dhi].
  pose proof (digits2_pos_range p 0 1000 ltac:(lia) ltac:(cbn; lia)) as Hd.
  set (d := Z.pos (digits2_pos p)) in *.
  assert (Hnorm : exists (mw : positive) (ew : Z),
             binary_normalize prec emax (Z.pos p) 0 false
             = S754_finite false mw ew /\
             2 ^ 52 <= Z.pos mw < 2 ^ 53 /\ -52 <= ew <= 948 /\
             (Z.pos mw * 2 ^ (ew + 1074) - Z.pos p * 2 ^ 1074) * 2 ^ 52
             <= Z.pos p * 2 ^ 1074 /\
             (Z.pos p * 2 ^ 1074 - Z.pos mw * 2 ^ (ew + 1074)) * 2 ^ 52
             <= Z.pos p * 2 ^ 1074).
  { cbn [binary_normalize]. unfold binary_round, shl_align, fexp,
      SpecFloat.emin, emax, prec. fold d.
    replace (Z.max (d + 0 - 53) (3 - 1024 - 53) - 0) with (d - 53) by lia.
    replace (Z.max (d + 0 - 53) (3 - 1024 - 53)) with (d - 53) by lia.
    destruct (d - 53) as [| k | k] eqn:Hk.
    - destruct (binary_round_aux_error false p 0 loc_Exact)
        as (m' & e' & Hround & Hm' & He' & Herr); try (fold d; lia).
      fold d in He'. exists m', e'. split; [exact Hround |].
      split; [exact Hm' |]. split; [lia | exact Herr].
    - destruct (binary_round_aux_error false p 0 loc_Exact)
        as (m' & e' & Hround & Hm' & He' & Herr); try (fold d; lia).
      fold d in He'. exists m', e'. split; [exact Hround |].
      split; [exact Hm' |]. split; [lia | exact Herr].
    - assert (Hshift : Z.pos (Pos.iter xO p k) = Z.pos p * 2 ^ Z.pos k).
      { change (Pos.iter xO p k) with (shift_pos k p).
        rewrite (shift_pos_correct k p). rewrite Z.mul_comm. reflexivity. }
      assert (Hk53 : Z.pos k = 53 - d) by lia.
      assert (Hmz : 2 ^ 52 <= Z.pos (Pos.iter xO p k) < 2 ^ 53).
      { assert (E52 : 2 ^ 52 = 2 ^ (d - 1) * 2 ^ (53 - d))
          by (rewrite <- Z.pow_add_r by lia; f_equal; lia).
        assert (E53 : 2 ^ 53 = 2 ^ d * 2 ^ (53 - d))
          by (rewrite <- Z.pow_add_r by lia; f_equal; lia).
        rewrite Hshift, Hk53, E52, E53.
        assert (0 < 2 ^ (53 - d)) by (apply Z.pow_pos_nonneg; lia).
        split; [apply Z.mul_le_mono_nonneg_r; lia
               | apply Z.mul_lt_mono_pos_r; lia]. }
      pose proof (digits2_pos_unique (Pos.iter xO p k) 53
                    ltac:(change (53 - 1) with 52; exact Hmz)) as Hdz.
      pose proof (binary_round_aux_error false (Pos.iter xO p k) (Z.neg k)
                    loc_Exact) as Hround0.
      cbv zeta in Hround0. rewrite Hdz in Hround0.
      destruct Hround0 as (m' & e' & Hround & Hm' & He' & Herr);
        [lia | lia | lia |].
      exists m', e'. split; [exact Hround |].
      split; [exact Hm' |]. split; [lia |].
      rewrite Hshift in Herr.
      replace (Z.pos p * 2 ^ Z.pos k * 2 ^ (Z.neg k + 1074))
        with (Z.pos p * 2 ^ 1074) in Herr; [exact Herr |].
      rewrite <- Z.mul_assoc, <- Z.pow_add_r by lia.
      f_equal. f_equal. lia. }
  destruct Hnorm as (mw & ew & Hnorm & Hmw & Hew & Herr).
  assert (Hback : Prim2SF (SF2Prim (S754_finite false mw ew))
                  = S754_finite false mw ew).
  { apply Prim2SF_SF2Prim, normal_mantissa_valid; [exact Hmw | lia]. }
  exists (SF2Prim (S754_finite false mw ew)), mw, ew.
  split; [| split; [exact Hback | split; [exact Hmw | split;
                                           [exact Hew | exact Herr]]]].
  unfold PyNum.float_of_int. rewrite Hnorm.
  unfold PrimFloat.is_infinity.
  rewrite FloatAxioms.eqb_spec, FloatAxioms.abs_spec, Hback.
  reflexivity.
Qed.

Lemma leb_of_scaled (a b : float) (ma mb : positive) (ea eb : Z) :
  Prim2SF a = S754_finite false ma ea ->
  Prim2SF b = S754_finite false mb eb ->
  Z.pos ma * 2 ^ (ea + 1074) <= Z.pos mb * 2 ^ (eb + 1074) ->
  PrimFloat.leb a b = true.
Proof.
  intros Ha Hb Hle. rewrite leb_spec. unfold SFleb.
  pose proof (SFcompare_scaled _ _ (Prim2SF_valid a) (Prim2SF_valid b)) as Hc.
  rewrite Ha, Hb in *. rewrite Hc. cbn [scaled PyNum.signed].
  destruct (Z.compare_spec (Z.pos ma * 2 ^ (ea + 1074))
                           (Z.pos mb * 2 ^ (eb + 1074)));
    [reflexivity | reflexivity | lia].
Qed.

Lemma float_lt_int_of_scaled (f : float) (m : positive) (e n : Z) :
  Prim2SF f = S754_finite false m e ->
  Z.pos m * 2 ^ (e + 1074) < n * 2 ^ 1074 ->
  PyNum.float_lt_int f n = true.
Proof.
  intros Hf Hlt. unfold PyNum.float_lt_int.
  pose proof (float_cmp_int_scaled f n) as Hc. rewrite Hf in Hc.
  rewrite Hc. cbn [scaled PyNum.signed].
  apply Z.compare_lt_iff in Hlt. rewrite Hlt. reflexivity.
Qed.

Lemma float_ge_int_of_scaled (f : float) (m : positive) (e n : Z) :
  Prim2SF f = S754_finite false m e ->
  n * 2 ^ 1074 <= Z.pos m * 2 ^ (e + 1074) ->
  PyNum.float_ge_int f n = true.
Proof.
  intros Hf Hle. unfold PyNum.float_ge_int.
  pose proof (float_cmp_int_scaled f n) as Hc. rewrite Hf in Hc.
  rewrite Hc. cbn [scaled PyNum.signed].
  destruct (Z.compare_spec (Z.pos m * 2 ^ (e + 1074)) (n * 2 ^ 1074));
    [reflexivity | lia | reflexivity].
Qed.

(** A constant between [2^-56] and [1] times a converted size. *)
Lemma mul_const_error (c fw : float) (mc mw : positive) (ec ew : Z) :
  Prim2SF c = S754_finite false mc ec ->
  Prim2SF fw = S754_finite false mw ew ->
  2 ^ 52 <= Z.pos mc < 2 ^ 53 -> 2 ^ 52 <= Z.pos mw < 2 ^ 53 ->
  -60 <= ec <= -53 -> -52 <= ew <= 948 ->
  exists (m' : positive) (e' Y : Z),
    Prim2SF (c * fw) = S754_finite false m' e' /\
    0 < Y /\
    Z.pos mw * 2 ^ (ew + 1074) = 2 ^ (- ec) * Y /\
    (Z.pos m' * 2 ^ (e' + 1074) - Z.pos mc * Y) * 2 ^ 52 <= Z.pos mc * Y /\
    (Z.pos mc * Y - Z.pos m' * 2 ^ (e' + 1074)) * 2 ^ 52 <= Z.pos mc * Y.
Proof.
  intros Hc Hf Hmc Hmw Hec Hew.
  destruct (mul_error c fw mc mw ec ew Hc Hf Hmc Hmw ltac:(lia) ltac:(lia))
    as (m' & e' & Hmul & Hhi & Hlo).
  exists m', e', (Z.pos mw * 2 ^ (ec + ew + 1074)).
  split; [exact Hmul |]. split.
  { apply Z.mul_pos_pos; [lia | apply Z.pow_pos_nonneg; lia]. }
  split.
  { rewrite (Z.mul_comm (2 ^ (- ec))), <- Z.mul_assoc, <- Z.pow_add_r by lia.
    f_equal. f_equal. lia. }
  rewrite !Z.mul_assoc. split; [exact Hhi | exact Hlo].
Qed.

(** For positive sizes below [2^1000] the band of [spawn_firework] is
    computed, in order and on the canvas. *)
Lemma band_on_canvas_positive (width height : Z) :
  0 < width < 2 ^ 1000 -> 0 < height < 2 ^ 1000 ->
  band_on_canvas width height = true.
Proof.
  intros Hw Hh.
  destruct (float_of_int_error width Hw)
    as (fw & mw & ew & Hfw & Hpw & Hmw & Hew & Hw1 & Hw2).
  destruct (float_of_int_error height Hh)
    as (fh & mh & eh & Hfh & Hph & Hmh & Heh & Hh1 & Hh2).
  assert (H52 : 2 ^ 52 = 4503599627370496) by reflexivity.
  destruct (mul_const_error 0.2 fw 7205759403792794 mw (-55) ew
              eq_refl Hpw ltac:(rewrite H52, (eq_refl : 2 ^ 53 = 9007199254740992); lia) Hmw ltac:(lia) Hew)
    as (m1 & e1 & Y1 & Hx1 & HY1 & HF1 & Hx1hi & Hx1lo).
  destruct (mul_const_error 0.8 fw 7205759403792794 mw (-53) ew
              eq_refl Hpw ltac:(rewrite H52, (eq_refl : 2 ^ 53 = 9007199254740992); lia) Hmw ltac:(lia) Hew)
    as (m2 & e2 & Y2 & Hx2 & HY2 & HF2 & Hx2hi & Hx2lo).
  destruct (mul_const_error 0.2 fh 7205759403792794 mh (-55) eh
              eq_refl Hph ltac:(rewrite H52, (eq_refl : 2 ^ 53 = 9007199254740992); lia) Hmh ltac:(lia) Heh)
    as (m3 & e3 & Y3 & Hx3 & HY3 & HF3 & Hx3hi & Hx3lo).
  destruct (mul_const_error 0.45 fh 8106479329266893 mh (-54) eh
              eq_refl Hph ltac:(rewrite H52, (eq_refl : 2 ^ 53 = 9007199254740992); lia) Hmh ltac:(lia) Heh)
    as (m4 & e4 & Y4 & Hx4 & HY4 & HF4 & Hx4hi & Hx4lo).
  unfold band_on_canvas, spawn_band, FireworkShow.mul_float_int.
  rewrite Hfw, Hfh.
  change (2 ^ (- -55)) with 36028797018963968 in *.
  change (2 ^ (- -53)) with 9007199254740992 in *.
  change (2 ^ (- -54)) with 18014398509481984 in *.
  rewrite H52 in *.
  assert (HW : 0 < width * 2 ^ 1074)
    by (apply Z.mul_pos_pos; [lia | apply Z.pow_pos_nonneg; lia]).
  assert (HH : 0 < height * 2 ^ 1074)
    by (apply Z.mul_pos_pos; [lia | apply Z.pow_pos_nonneg; lia]).
  set (W := width * 2 ^ 1074) in *. set (Ht := height * 2 ^ 1074) in *.
  set (Fw := Z.pos mw * 2 ^ (ew + 1074)) in *.
  set (Fh := Z.pos mh * 2 ^ (eh + 1074)) in *.
  repeat (apply andb_true_iff; split).
  - apply (leb_of_scaled _ _ _ _ _ _ Hx1 Hx2). lia.
  - apply (leb_of_scaled _ _ _ _ _ _ Hx3 Hx4). lia.
  - apply (float_ge_int_of_scaled _ _ _ _ Hx1). lia.
  - apply (float_lt_int_of_scaled _ _ _ _ Hx2). fold W. lia.
  - apply (float_ge_int_of_scaled _ _ _ _ Hx3). lia.
  - apply (float_lt_int_of_scaled _ _ _ _ Hx4). fold Ht. lia.
Qed.

(** A band on the canvas has its ends in order. *)
Lemma band_on_canvas_in_order (width height : Z) :
  band_on_canvas width height = true -> band_in_order width height = true.
Proof.
  unfold band_on_canvas, band_in_order.
  destruct (spawn_band width height) as [[[[x_lo x_hi] y_lo] y_hi] |];
    [| discriminate].
  intros Hband. repeat (apply andb_true_iff in Hband as [Hband ?]).
  apply andb_true_iff. split; assumption.
Qed.

End Rounding.

(** ** The concrete generator keeps the contract *)

#[export] Instance lcg_laws : RandomLaws Lcg.t.
Proof.
  split.
  - intros a b g Hab. cbn. unfold Lcg.uniform; cbn [fst].
    destruct (leb_refl_of_leb a b Hab) as [Ha Hb].
    destruct (Z.even (Lcg.bits g)); split; assumption.
  - intros n g Hn. cbn. unfold Lcg.randrange; cbn [fst].
    apply Z.mod_pos_bound. exact Hn.
  - intros a b g Hab. cbn. unfold Lcg.randint; cbn [fst].
    pose proof (Z.mod_pos_bound (Lcg.bits g) (b - a + 1) ltac:(lia)). lia.
  - intros A l g Hl. cbn. unfold Lcg.choice; cbn [fst].
    assert (Hlen : 0 < PySeq.len l).
    { unfold PySeq.len. destruct l; [contradiction | cbn; lia]. }
    pose proof (Z.mod_pos_bound (Lcg.bits g) (PySeq.len l) Hlen) as Hb.
    destruct (l !! Z.to_nat (Lcg.bits g mod PySeq.len l)) as [c |] eqn:Hc.
    + exists c. split; [reflexivity |].
      apply list_elem_of_In. eapply list_elem_of_lookup_2. exact Hc.
    + apply lookup_ge_None in Hc. unfold PySeq.len in *. lia.
Qed.

(** ** Theorems on [Particle] *)

(** A particle that [step] reports alive has a positive [life]. *)
Lemma step_alive_life (p : Particle.t) (gravity damping : float) :
  snd (Particle.step p gravity damping) = true ->
  0 < Particle.life (fst (Particle.step p gravity damping)).
Proof.
  unfold Particle.step.
  destruct (Z.leb_spec (Particle.life p) 0); cbn [fst snd Particle.life];
    [discriminate |].
  rewrite andb_true_iff, Z.ltb_lt. intros [Hl _]. exact Hl.
Qed.

(** C1.  [Particle.step] follows the reference behaviour: with [life <= 0]
    at entry nothing changes and the flag is false; otherwise the position
    moves by the velocity held at entry, [vx] becomes [vx * damping], [vy]
    becomes [vy * damping + gravity], [life] drops by exactly one, the
    colour stays, and the flag is true exactly when the new [life] is
    positive and the new [y] is [>= 0]. *)
Theorem particle_step_reference (p : Particle.t) (gravity damping : float) :
  let (p', alive) := Particle.step p gravity damping in
  (Particle.life p <= 0 -> p' = p /\ alive = false) /\
  (0 < Particle.life p ->
     Particle.x p' = (Particle.x p + Particle.vx p)%float /\
     Particle.y p' = (Particle.y p + Particle.vy p)%float /\
     Particle.vx p' = (Particle.vx p * damping)%float /\
     Particle.vy p' = (Particle.vy p * damping + gravity)%float /\
     Particle.life p' = Particle.life p - 1 /\
     Particle.colour p' = Particle.colour p /\
     (alive = true <->
        0 < Particle.life p' /\ PyNum.float_ge_int (Particle.y p') 0 = true)).
Proof.
  unfold Particle.step.
  destruct (Z.leb_spec (Particle.life p) 0) as [Hle | Hgt].
  - split; [intros _; split; reflexivity | intros Hpos; lia].
  - split; [intros Hle; lia |].
    intros _; cbn [Particle.x Particle.y Particle.vx Particle.vy
                   Particle.life Particle.colour].
    repeat (split; [reflexivity |]).
    rewrite andb_true_iff, Z.ltb_lt. reflexivity.
Qed.

(** C5, as the code behaves.  The particle at [(5.0, 5.0)], at rest, with
    [life = 1], stepped with gravity [0.12] and damping [0.92]: [life]
    becomes [0], the flag is false, the position stays [(5.0, 5.0)]
    because it moves by the velocity held at entry, and [vy] becomes
    [0.12] for the next frame. *)
Theorem scenario_step (colour : Z) :
  Particle.step (scenario_particle colour) 0.12 0.92
  = (Particle.Build 5.0 5.0 0 0.12 0 colour, false).
Proof. reflexivity. Qed.

(** C5, as stated, fails: after the step [y] is [5.0], which is not
    [5.12]. *)
Lemma scenario_y_is_not_5_12 :
  let p' := fst (Particle.step (scenario_particle 196) 0.12 0.92) in
  Particle.life p' = 0 /\
  snd (Particle.step (scenario_particle 196) 0.12 0.92) = false /\
  Particle.x p' = 5.0%float /\
  Particle.y p' = 5.0%float /\
  PrimFloat.eqb (Particle.y p') 5.12 = false /\
  Particle.y p' <> 5.12%float.
Proof.
  cbv zeta. repeat (split; [reflexivity |]).
  intros Heq.
  assert (Hb : PrimFloat.eqb
                 (Particle.y (fst (Particle.step (scenario_particle 196)
                                                 0.12 0.92))) 5.12 = true)
    by (rewrite Heq; reflexivity).
  discriminate Hb.
Qed.

(** ** The command line *)

Section CommandLine.

Context {G : Type} {RS : RandomSource G} {LM : Libm} {CK : Clock}
        {U : Unicode}.

Lemma int_of_str_raises (s : string) (e : exn) :
  PyStr.int_of_str s = Raise e -> e = ValueError.
Proof.
  unfold PyStr.int_of_str.
  destruct (if PyStr.is_ascii s then PyStr.ascii_int s else wide_int s);
    intros Hr; [discriminate Hr | congruence].
Qed.

(** An explicit size is returned as parsed. *)
Lemma detect_size_explicit (terminal : Z * Z) (size_flag a b : string)
      (w h : Z) :
  size_flag <> "auto"%string ->
  PyStr.split1 "x" (PyStr.lower size_flag) = [a; b] ->
  PyStr.int_of_str a = Ok w -> PyStr.int_of_str b = Ok h ->
  detect_size terminal size_flag = Ok (w, h).
Proof.
  intros Hauto Hsplit Ha Hb. unfold detect_size.
  apply String.eqb_neq in Hauto. rewrite Hauto. cbn [negb].
  rewrite Hsplit, Ha, Hb. reflexivity.
Qed.

(** An explicit size either parses or raises the argument error. *)
Lemma detect_size_explicit_cases (terminal : Z * Z) (size_flag : string) :
  size_flag <> "auto"%string ->
  (exists a b w h,
      PyStr.split1 "x" (PyStr.lower size_flag) = [a; b] /\
      PyStr.int_of_str a = Ok w /\ PyStr.int_of_str b = Ok h /\
      detect_size terminal size_flag = Ok (w, h)) \/
  detect_size terminal size_flag = Raise (ArgumentTypeError SIZE_MESSAGE).
Proof.
  intros Hauto. unfold detect_size.
  apply String.eqb_neq in Hauto. rewrite Hauto. cbn [negb].
  destruct (PyStr.split1 "x" (PyStr.lower size_flag))
    as [| a [| b [| c rest]]]; try (right; reflexivity).
  destruct (PyStr.int_of_str a) as [w | e] eqn:Ha.
  - destruct (PyStr.int_of_str b) as [h | e] eqn:Hb.
    + left. exists a, b, w, h. repeat split; assumption || reflexivity.
    + right. apply int_of_str_raises in Hb. subst e. reflexivity.
  - right. apply int_of_str_raises in Ha. subst e. reflexivity.
Qed.

(** The loop of [main] reads the delay through [time.sleep] alone. *)
Lemma show_loop_sleep (total : Z) (secs1 secs2 : float) (todo : list Z)
      (w : FireworkShow.world G) :
  sleep secs1 = sleep secs2 ->
  show_loop total secs1 todo w = show_loop total secs2 todo w.
Proof.
  intros Hsleep. revert w. induction todo as [| frame todo IH]; intros w;
    cbn [show_loop]; [reflexivity |].
  destruct (FireworkShow.step w) as [[u w1] | e]; [| reflexivity].
  destruct (FireworkShow.render w1) as [[frame_data w2] | e];
    [| reflexivity].
  rewrite Hsleep, IH. reflexivity.
Qed.

(** C9.  The size ["120x40"] gives a show of width 120 and height 40;
    ["bogus"], and every size that is neither ["auto"] nor two integers
    around an ["x"], raises the argument error, and then [main] ends
    with a non-zero exit status and has printed and rendered nothing. *)
Theorem size_argument_handling :
  (forall terminal, detect_size terminal "120x40" = Ok (120, 40)) /\
  (forall (env : Env G) args,
      size args = "120x40"%string ->
      exists w0, startup env args = Ok w0 /\
                 FireworkShow.width (FireworkShow.self w0) = 120 /\
                 FireworkShow.height (FireworkShow.self w0) = 40) /\
  (forall terminal,
      detect_size terminal "bogus"
      = Raise (ArgumentTypeError SIZE_MESSAGE)) /\
  (forall terminal size_flag,
      size_flag <> "auto"%string ->
      ~ (exists a b w h,
            PyStr.split1 "x" (PyStr.lower size_flag) = [a; b] /\
            PyStr.int_of_str a = Ok w /\ PyStr.int_of_str b = Ok h) ->
      detect_size terminal size_flag
      = Raise (ArgumentTypeError SIZE_MESSAGE)) /\
  (forall (env : Env G) args e,
      detect_size (terminal_size env) (size args) = Raise e ->
      main env args = {| stdout := []; rendered := []; status := Raise e |}
      /\ exit_code (main env args) <> 0).
Proof.
  split; [intros; reflexivity |].
  split.
  { intros env args Hsize. unfold startup. rewrite Hsize.
    eexists. split; [reflexivity |]. split; reflexivity. }
  split; [intros; reflexivity |].
  split.
  { intros terminal size_flag Hauto Hno.
    destruct (detect_size_explicit_cases terminal size_flag Hauto)
      as [(a & b & w & h & Hs & Ha & Hb & _) | Hr]; [| exact Hr].
    exfalso. apply Hno. exists a, b, w, h. auto. }
  intros env args e Hr.
  assert (Hmain : main env args
                  = {| stdout := []; rendered := []; status := Raise e |}).
  { unfold main, startup. rewrite Hr. reflexivity. }
  split; [exact Hmain |].
  rewrite Hmain. unfold exit_code. cbn. lia.
Qed.

(** C10.  An explicit size that parses is returned as it is, without
    any check: ["0x0"] and ["-5x10"] are accepted and the show is built
    on a canvas that is not positive; the floors of 40 and 15 and the
    margin of one cell belong to ["auto"] alone. *)
Theorem explicit_size_unchecked :
  (forall terminal size_flag a b w h,
      size_flag <> "auto"%string ->
      PyStr.split1 "x" (PyStr.lower size_flag) = [a; b] ->
      PyStr.int_of_str a = Ok w -> PyStr.int_of_str b = Ok h ->
      detect_size terminal size_flag = Ok (w, h)) /\
  (forall terminal, detect_size terminal "0x0" = Ok (0, 0)) /\
  (forall terminal, detect_size terminal "-5x10" = Ok (-5, 10)) /\
  (forall (env : Env G) args,
      size args = "0x0"%string ->
      exists w0, startup env args = Ok w0 /\
                 FireworkShow.width (FireworkShow.self w0) = 0 /\
                 FireworkShow.height (FireworkShow.self w0) = 0) /\
  (forall width height,
      detect_size (width, height) "auto"
      = Ok (Z.max 40 (width - 1), Z.max 15 (height - 1))).
Proof.
  split; [intros; eapply detect_size_explicit; eassumption |].
  split; [intros; reflexivity |].
  split; [intros; reflexivity |].
  split; [| intros; reflexivity].
  intros env args Hsize. unfold startup. rewrite Hsize.
  eexists. split; [reflexivity |]. split; reflexivity.
Qed.

(** C6, as the code behaves.  With a seed given, the run is a function
    of the frame count, the size, the seed and of what [time.sleep] does
    with the interval: two runs that agree on the first three, and whose
    intervals [time.sleep] treats alike when there is a frame to show,
    print the same texts and render the same frames, whatever state the
    generator was in when they started; with the size ["auto"] the
    terminals have to be of the same size too. *)
Theorem seeded_run_deterministic (env1 env2 : Env G) (args1 args2 : Args)
        (n : Z) :
  seed_arg args1 = Some n -> seed_arg args2 = Some n ->
  frames args1 = frames args2 ->
  size args1 = size args2 ->
  (size args1 = "auto"%string -> terminal_size env1 = terminal_size env2) ->
  (0 < frames args1 -> sleep (interval args1) = sleep (interval args2)) ->
  main env1 args1 = main env2 args2.
Proof.
  intros Hs1 Hs2 Hf Hsz Hterm Hsleep.
  assert (Hd : detect_size (terminal_size env1) (size args1)
               = detect_size (terminal_size env2) (size args2)).
  { rewrite <- Hsz. unfold detect_size.
    destruct (String.eqb_spec (size args1) "auto") as [Ha | Ha];
      cbn [negb]; [rewrite (Hterm Ha) |]; reflexivity. }
  unfold main, startup. rewrite Hs1, Hs2, Hd, <- Hf.
  destruct (detect_size (terminal_size env2) (size args2))
    as [[width height] | e]; [| reflexivity].
  destruct (Z.ltb_spec 0 (frames args1)) as [Hpos | Hnone].
  - rewrite (show_loop_sleep _ _ _ _ _ (Hsleep Hpos)). reflexivity.
  - unfold PySeq.range. replace (Z.to_nat (frames args1)) with 0%nat by lia.
    reflexivity.
Qed.

End CommandLine.

(** ** Running a method *)

Section Running.

Context {G : Type}.

Import FireworkShow.

Lemma bind_ok {A B} (m : M G A) (k : A -> M G B) w b w2 :
  bind m k w = Ok (b, w2) <->
  exists a w1, m w = Ok (a, w1) /\ k a w1 = Ok (b, w2).
Proof.
  unfold bind. split.
  - destruct (m w) as [[a w1] | e]; [| discriminate].
    intros Hk. exists a, w1. split; [reflexivity | exact Hk].
  - intros (a & w1 & Hm & Hk). rewrite Hm. exact Hk.
Qed.

Lemma bind_run {A B} (m : M G A) (k : A -> M G B) w a w1 :
  m w = Ok (a, w1) -> bind m k w = k a w1.
Proof. unfold bind. intros ->. reflexivity. Qed.

Lemma lift_ok {A} (r : result A) w a w1 :
  @lift G A r w = Ok (a, w1) <-> r = Ok a /\ w1 = w.
Proof.
  unfold lift. destruct r as [a0 | e]; split.
  - intros [= -> ->]. split; reflexivity.
  - intros [[= ->] ->]. reflexivity.
  - discriminate.
  - intros [[=] _].
Qed.

Lemma draw_ok {A} (d : G -> A * G) w a w1 :
  draw d w = Ok (a, w1) <->
  a = fst (d (rng w)) /\ w1 = World (self w) (snd (d (rng w))).
Proof.
  unfold draw. destruct (d (rng w)) as [a0 g]; cbn [fst snd]. split.
  - intros [= -> ->]. split; reflexivity.
  - intros [-> ->]. reflexivity.
Qed.

Lemma keeps_self_ret {A} (a : A) : keeps_self (@ret G A a).
Proof. intros w a' w' [= _ <-]. reflexivity. Qed.

Lemma keeps_self_lift {A} (r : result A) : keeps_self (@lift G A r).
Proof. intros w a w' Hr. apply lift_ok in Hr as [_ ->]. reflexivity. Qed.

Lemma keeps_self_get : keeps_self (@get G).
Proof. intros w a w' [= _ <-]. reflexivity. Qed.

Lemma keeps_self_draw {A} (d : G -> A * G) : keeps_self (draw d).
Proof. intros w a w' Hd. apply draw_ok in Hd as [_ ->]. reflexivity. Qed.

Lemma keeps_self_bind {A B} (m : M G A) (k : A -> M G B) :
  keeps_self m -> (forall a, keeps_self (k a)) -> keeps_self (bind m k).
Proof.
  intros Hm Hk w b w2 Hb. apply bind_ok in Hb as (a & w1 & Hm1 & Hk1).
  rewrite (Hk a _ _ _ Hk1). exact (Hm _ _ _ Hm1).
Qed.

Lemma keeps_self_for_each {A S} (body : S -> A -> M G S) (l : list A) :
  (forall acc a, keeps_self (body acc a)) ->
  forall acc, keeps_self (for_each body l acc).
Proof.
  intros Hbody. induction l as [| a rest IH]; intros acc; cbn [for_each].
  - apply keeps_self_ret.
  - apply keeps_self_bind; [apply Hbody | exact IH].
Qed.

End Running.

Create HintDb frame.
#[local] Hint Resolve keeps_self_ret keeps_self_lift keeps_self_get
  keeps_self_draw : frame.

(** ** [render] *)

Section Render.

Context {G : Type} {RS : RandomSource G} {LM : Libm}.

Import FireworkShow.

Lemma plot_keeps_self s grids particle :
  keeps_self (plot s grids particle).
Proof.
  unfold plot. destruct grids as [canvas colour_map].
  repeat (apply keeps_self_bind; [auto with frame | intros ?]).
  destruct (_ && _); [| auto with frame].
  repeat (apply keeps_self_bind; [auto with frame | intros ?]).
  auto with frame.
Qed.

Lemma render_keeps_self : keeps_self (@render G _).
Proof.
  unfold render.
  apply keeps_self_bind; [auto with frame | intros s].
  apply keeps_self_bind; [| auto with frame].
  apply keeps_self_for_each. intros acc a. apply plot_keeps_self.
Qed.

(** C8.  [render] does not change the show: when it returns, the object
    holds the same [width], [height], [gravity], [damping], [sparks] and
    [frame_counter] and the same particles, each with its position,
    velocity, [life] and colour; only the generator has moved on. *)
Theorem render_keeps_show (w : world G) :
  match render w with
  | Ok (_, w') => self w' = self w
  | Raise _ => True
  end.
Proof.
  destruct (render w) as [[frame w'] | e] eqn:Hr; [| exact I].
  exact (render_keeps_self w frame w' Hr).
Qed.

End Render.

(** ** Lines of text *)

Lemma no_newline_app (a b : string) :
  no_newline (a ++ b) = no_newline a && no_newline b.
Proof.
  induction a as [| c a IH]; cbn; [reflexivity |].
  rewrite IH, andb_assoc. reflexivity.
Qed.

Lemma no_newline_digits (d : Decimal.uint) :
  no_newline (NilEmpty.string_of_uint d) = true.
Proof.
  induction d as [| d IH | d IH | d IH | d IH | d IH | d IH | d IH | d IH
                  | d IH | d IH];
    cbn [NilEmpty.string_of_uint no_newline];
    [reflexivity | rewrite IH; reflexivity ..].
Qed.

Lemma no_newline_uint (d : Decimal.uint) :
  no_newline (NilZero.string_of_uint d) = true.
Proof.
  unfold NilZero.string_of_uint.
  destruct d; try apply no_newline_digits. reflexivity.
Qed.

Lemma no_newline_str_of_int (n : Z) : no_newline (PyNum.str_of_int n) = true.
Proof.
  unfold PyNum.str_of_int, NilZero.string_of_int.
  destruct (Z.to_int n); cbn; apply no_newline_uint.
Qed.

Lemma no_newline_concat (parts : list string) :
  Forall (fun part => no_newline part = true) parts ->
  no_newline (PySeq.concat parts) = true.
Proof.
  unfold PySeq.concat.
  induction 1 as [| part parts Hp _ IH]; cbn [fold_right]; [reflexivity |].
  rewrite no_newline_app, Hp, IH. reflexivity.
Qed.

Lemma split_lines_no_newline (s : string) :
  no_newline s = true -> split_lines s = [s].
Proof.
  induction s as [| c s IH]; cbn; [reflexivity |].
  rewrite andb_true_iff, negb_true_iff. intros [Hc Hs].
  rewrite Hc, (IH Hs). reflexivity.
Qed.

Lemma split_lines_app (s t : string) :
  no_newline s = true ->
  split_lines (s ++ FireworkShow.NL ++ t) = s :: split_lines t.
Proof.
  induction s as [| c s IH]; cbn; [reflexivity |].
  rewrite andb_true_iff, negb_true_iff. intros [Hc Hs].
  rewrite Hc. cbn in IH. rewrite (IH Hs). reflexivity.
Qed.

Lemma split_lines_join (rows : list string) :
  Forall (fun row => no_newline row = true) rows -> rows <> [] ->
  split_lines (PySeq.join FireworkShow.NL rows) = rows.
Proof.
  induction 1 as [| row rows Hrow Hrows IH]; intros Hne; [contradiction |].
  destruct rows as [| row' rows'].
  - cbn. apply split_lines_no_newline, Hrow.
  - cbn [PySeq.join]. rewrite split_lines_app by exact Hrow.
    f_equal. apply IH. discriminate.
Qed.

(** ** The canvas *)

Section Canvas.

Import FireworkShow.

Lemma range_length (n : Z) : length (PySeq.range n) = Z.to_nat n.
Proof. unfold PySeq.range. rewrite length_map, length_seq. reflexivity. Qed.

Lemma index_ok {A} (l : list A) (i : Z) (a : A) :
  0 <= i -> l !! Z.to_nat i = Some a -> PySeq.index l i = Ok a.
Proof.
  intros Hi Hl. unfold PySeq.index.
  destruct (Z.ltb_spec i 0); [lia |].
  destruct (Z.ltb_spec i 0); [lia |]. rewrite Hl. reflexivity.
Qed.

Lemma set_index_ok {A} (l : list A) (i : Z) (v : A) :
  0 <= i -> (Z.to_nat i < length l)%nat ->
  PySeq.set_index l i v = Ok (<[Z.to_nat i := v]> l).
Proof.
  intros Hi Hl. unfold PySeq.set_index, PySeq.len.
  destruct (Z.ltb_spec i 0); [lia |].
  destruct (Z.ltb_spec i 0); [lia |].
  destruct (Z.leb_spec (Z.of_nat (length l)) i); [lia |]. reflexivity.
Qed.

Lemma set_cell_ok {A} (grid : list (list A)) (i j : Z) (row : list A)
      (v : A) :
  0 <= i -> 0 <= j -> grid !! Z.to_nat i = Some row ->
  (Z.to_nat j < length row)%nat ->
  PySeq.set_cell grid i j v
  = Ok (<[Z.to_nat i := <[Z.to_nat j := v]> row]> grid).
Proof.
  intros Hi Hj Hrow Hlen. unfold PySeq.set_cell.
  rewrite (index_ok _ _ _ Hi Hrow), (set_index_ok _ _ _ Hj Hlen).
  apply set_index_ok; [exact Hi |].
  eapply lookup_lt_Some. exact Hrow.
Qed.

Lemma Forall2_const_rows {A B C} (P : A -> B -> Prop) (a : A) (b : B)
      (l : list C) :
  P a b -> Forall2 P (map (fun _ => a) l) (map (fun _ => b) l).
Proof. intros Hab. induction l; cbn; constructor; assumption. Qed.

(** The grids [render] starts from. *)
Lemma grids_ok_blank (s : t) :
  grids_ok s
    (map (fun _ => map (fun _ => SPACE) (PySeq.range (width s)))
         (PySeq.range (height s)))
    (map (fun _ => map (fun _ => @None Z) (PySeq.range (width s)))
         (PySeq.range (height s))).
Proof.
  split.
  - rewrite length_map, range_length. reflexivity.
  - apply Forall2_const_rows. split.
    + rewrite length_map, range_length. reflexivity.
    + apply Forall2_const_rows. left. reflexivity.
Qed.

(** Writing a glyph and the colour of a live particle into the same
    cell of both grids. *)
Lemma grids_ok_set (s : t) canvas colour_map (iy ix : Z) glyph p :
  grids_ok s canvas colour_map ->
  0 <= iy < height s -> 0 <= ix < width s ->
  In glyph GLYPHS -> In p (particles s) ->
  exists canvas' colour_map',
    PySeq.set_cell canvas iy ix glyph = Ok canvas' /\
    PySeq.set_cell colour_map iy ix (Some (Particle.colour p))
    = Ok colour_map' /\
    grids_ok s canvas' colour_map'.
Proof.
  intros [Hlen Hrows] Hy Hx Hg Hp.
  destruct (lookup_lt_is_Some_2 canvas (Z.to_nat iy) ltac:(lia))
    as [row Hrow].
  destruct (Forall2_lookup_l _ _ _ _ _ Hrows Hrow)
    as (colour_row & Hcrow & Hwidth & Hcells).
  pose proof (Forall2_length _ _ _ Hcells) as Hsame.
  eexists _, _. split; [| split].
  - apply (set_cell_ok _ _ _ row); [lia | lia | exact Hrow | lia].
  - apply (set_cell_ok _ _ _ colour_row); [lia | lia | exact Hcrow | lia].
  - split.
    + rewrite length_insert. exact Hlen.
    + apply Forall2_insert; [exact Hrows |]. split.
      * rewrite length_insert. exact Hwidth.
      * apply Forall2_insert; [exact Hcells |].
        right. exists glyph, p. auto.
Qed.

End Canvas.

Section Formatting.

Import FireworkShow.

Lemma glyph_not_space (glyph : string) :
  In glyph GLYPHS -> String.eqb glyph SPACE = false.
Proof.
  intros [<- | [<- | [<- | [<- | []]]]]; reflexivity.
Qed.

Lemma glyph_no_newline (glyph : string) :
  In glyph GLYPHS -> no_newline glyph = true.
Proof.
  intros [<- | [<- | [<- | [<- | []]]]]; reflexivity.
Qed.

(** On a cell of the canvas [_format_canvas] writes the text of the
    cell. *)
Lemma format_cell_text (s : t) (cell : string * option Z) :
  cell_of s cell -> format_cell cell = cell_text cell.
Proof.
  intros [-> | (glyph & p & Hg & _ & ->)]; [reflexivity |].
  unfold format_cell, cell_text. rewrite (glyph_not_space _ Hg).
  reflexivity.
Qed.

Lemma cell_text_no_newline (s : t) (cell : string * option Z) :
  cell_of s cell -> no_newline (cell_text cell) = true.
Proof.
  intros [-> | (glyph & p & Hg & _ & ->)]; [reflexivity |].
  unfold cell_text.
  rewrite !no_newline_app, no_newline_str_of_int, (glyph_no_newline _ Hg).
  reflexivity.
Qed.

Lemma row_text_no_newline (s : t) (row : list (string * option Z)) :
  Forall (cell_of s) row -> no_newline (row_text row) = true.
Proof.
  intros Hrow. apply no_newline_concat.
  induction Hrow as [| cell row Hc _ IH]; cbn [map]; constructor;
    [exact (cell_text_no_newline s cell Hc) | exact IH].
Qed.

Lemma Forall2_combine {A B} (P : A -> B -> Prop) (l : list A)
      (k : list B) :
  Forall2 P l k ->
  length (combine l k) = length l /\
  Forall (fun ab => P (fst ab) (snd ab)) (combine l k).
Proof.
  induction 1 as [| a b l k Hab _ [IHlen IHall]]; cbn.
  - split; [reflexivity | constructor].
  - split; [rewrite IHlen; reflexivity | constructor; assumption].
Qed.

(** The cells of the two grids, paired. *)
Lemma zip_grids_ok (s : t) canvas colour_map :
  grids_ok s canvas colour_map ->
  let grid := map (fun rows : list string * list (option Z) =>
                     combine (fst rows) (snd rows))
                  (combine canvas colour_map) in
  _format_canvas canvas colour_map = PySeq.join NL (map row_text grid) /\
  length grid = Z.to_nat (height s) /\
  Forall (fun row => length row = Z.to_nat (width s) /\
                     Forall (cell_of s) row) grid.
Proof.
  intros [Hlen Hrows] grid.
  destruct (Forall2_combine _ _ _ Hrows) as [Hclen Hcall].
  assert (Hgrid : Forall (fun row => length row = Z.to_nat (width s) /\
                                     Forall (cell_of s) row) grid).
  { unfold grid. apply Forall_map.
    eapply Forall_impl; [exact Hcall |].
    intros [row colour_row] [Hw Hcells]; cbn [fst snd] in *.
    destruct (Forall2_combine _ _ _ Hcells) as [Hl Hall].
    split; [rewrite Hl; exact Hw |].
    eapply Forall_impl; [exact Hall |].
    intros [char colour] Hc. exact Hc. }
  split; [| split].
  - unfold _format_canvas. f_equal. unfold grid. rewrite map_map.
    apply map_ext_in. intros [row colour_row] Hin. cbn [fst snd].
    unfold row_text. f_equal. apply map_ext_in. intros cell Hcell.
    rewrite List.Forall_forall in Hcall.
    destruct (Hcall _ Hin) as [_ Hcells]. cbn [fst snd] in Hcells.
    destruct (Forall2_combine _ _ _ Hcells) as [_ Hall].
    rewrite List.Forall_forall in Hall. apply (format_cell_text s).
    destruct cell as [char colour]. exact (Hall _ Hcell).
  - unfold grid. rewrite length_map, Hclen. exact Hlen.
  - exact Hgrid.
Qed.

Lemma row_text_blank {C} (l : list C) :
  row_text (combine (map (fun _ => SPACE) l) (map (fun _ => @None Z) l))
  = spaces (length l).
Proof.
  unfold row_text, PySeq.concat.
  induction l as [| c l IH]; cbn; [reflexivity |]. rewrite IH. reflexivity.
Qed.

(** The blank grids give [height] rows of [width] spaces. *)
Lemma blank_rows (width height : Z) :
  map row_text
      (map (fun rows : list string * list (option Z) =>
              combine (fst rows) (snd rows))
           (combine
              (map (fun _ => map (fun _ => SPACE) (PySeq.range width))
                   (PySeq.range height))
              (map (fun _ => map (fun _ => @None Z) (PySeq.range width))
                   (PySeq.range height))))
  = repeat (spaces (Z.to_nat width)) (Z.to_nat height).
Proof.
  rewrite <- (range_length height).
  induction (PySeq.range height) as [| r rest IH];
    cbn [map combine fst snd length repeat]; [reflexivity |].
  rewrite row_text_blank, range_length. f_equal. exact IH.
Qed.

End Formatting.

Section RenderFrame.

Context {G : Type} {RS : RandomSource G} {RL : RandomLaws G} {LM : Libm}.

Import FireworkShow.

(** Plotting a particle with a finite position returns and keeps the
    grids well formed. *)
Lemma plot_ok (s : t) canvas colour_map (p : Particle.t) (w : world G) :
  grids_ok s canvas colour_map ->
  finite_position p -> In p (particles s) ->
  exists canvas' colour_map' w',
    plot s (canvas, colour_map) p w = Ok ((canvas', colour_map'), w') /\
    grids_ok s canvas' colour_map'.
Proof.
  intros Hok [Hfx Hfy] Hin.
  destruct (int_of_float_finite _ Hfx) as [ix Hix].
  destruct (int_of_float_finite _ Hfy) as [iy Hiy].
  unfold plot, bind, lift. rewrite Hix, Hiy.
  destruct ((0 <=? ix) && (ix <? width s)
            && ((0 <=? iy) && (iy <? height s))) eqn:Hguard.
  - apply andb_true_iff in Hguard as [Hgx Hgy].
    apply andb_true_iff in Hgx as [Hx0 Hx1].
    apply andb_true_iff in Hgy as [Hy0 Hy1].
    apply Z.leb_le in Hx0, Hy0. apply Z.ltb_lt in Hx1, Hy1.
    destruct (choice_elem _ GLYPHS (rng w) ltac:(discriminate))
      as (glyph & Hpick & Hglyph).
    destruct (grids_ok_set s canvas colour_map iy ix glyph p Hok
                ltac:(lia) ltac:(lia) Hglyph Hin)
      as (canvas' & colour_map' & Hc & Hm & Hok').
    unfold draw. destruct (choice GLYPHS (rng w)) as [pick g'] eqn:Hch.
    cbn [fst] in Hpick. subst pick. rewrite Hc, Hm.
    eexists _, _, _. split; [reflexivity | exact Hok'].
  - eexists _, _, _. split; [reflexivity | exact Hok].
Qed.

Lemma plot_loop_ok (s : t) (ps : list Particle.t) :
  Forall finite_position ps -> (forall p, In p ps -> In p (particles s)) ->
  forall canvas colour_map (w : world G),
    grids_ok s canvas colour_map ->
    exists canvas' colour_map' w',
      for_each (plot s) ps (canvas, colour_map) w
      = Ok ((canvas', colour_map'), w') /\
      grids_ok s canvas' colour_map'.
Proof.
  induction 1 as [| p ps Hp _ IH]; intros Hin canvas colour_map w Hok.
  - eexists _, _, _. split; [reflexivity | exact Hok].
  - destruct (plot_ok s canvas colour_map p w Hok Hp
                (Hin p (or_introl eq_refl)))
      as (canvas1 & colour_map1 & w1 & Hplot & Hok1).
    destruct (IH (fun q Hq => Hin q (or_intror Hq)) canvas1 colour_map1 w1
                Hok1)
      as (canvas2 & colour_map2 & w2 & Hloop & Hok2).
    exists canvas2, colour_map2, w2. split; [| exact Hok2].
    cbn [for_each]. rewrite (bind_run _ _ _ _ _ Hplot). exact Hloop.
Qed.

(** With finite positions [render] returns the text of two well
    formed grids; with no particle they are the blank ones and nothing
    is drawn. *)
Lemma render_runs (w : world G) :
  Forall finite_position (particles (self w)) ->
  exists canvas colour_map w',
    render w = Ok (_format_canvas canvas colour_map, w') /\
    grids_ok (self w) canvas colour_map /\
    (particles (self w) = [] ->
     w' = w /\
     canvas = map (fun _ => map (fun _ => SPACE)
                                (PySeq.range (width (self w))))
                  (PySeq.range (height (self w))) /\
     colour_map = map (fun _ => map (fun _ => @None Z)
                                    (PySeq.range (width (self w))))
                      (PySeq.range (height (self w)))).
Proof.
  intros Hfin. set (s := self w).
  destruct (plot_loop_ok s (particles s) Hfin (fun p Hp => Hp) _ _ w
              (grids_ok_blank s))
    as (canvas & colour_map & w' & Hloop & Hok).
  exists canvas, colour_map, w'. split; [| split; [exact Hok |]].
  - unfold render, bind, get. fold s. rewrite Hloop. reflexivity.
  - intros Hnone. rewrite Hnone in Hloop.
    cbn [for_each] in Hloop. unfold ret in Hloop.
    injection Hloop as <- <- <-. repeat split.
Qed.

End RenderFrame.

(** ** Explosions *)

Section Explosion.

Context {G : Type} {RS : RandomSource G} {RL : RandomLaws G} {LM : Libm}.

Import FireworkShow.

Lemma palette_index (i : Z) :
  0 <= i < PySeq.len PALETTE -> exists c, PySeq.index PALETTE i = Ok c.
Proof.
  intros Hi. change (PySeq.len PALETTE) with 14 in Hi.
  destruct (lookup_lt_is_Some_2 PALETTE (Z.to_nat i)) as [c Hc].
  { change (length PALETTE) with 14%nat. lia. }
  exists c. apply index_ok; [lia | exact Hc].
Qed.

(** The generator emits one particle for each element of the range,
    and leaves the show alone. *)
Lemma create_explosion_ok (x y radius : float) (hue_shift : Z)
      (w : world G) :
  exists new g',
    _create_explosion x y radius hue_shift w
    = Ok (new, World (self w) g') /\
    length new = Z.to_nat (sparks (self w)) /\
    Forall (emitted x y hue_shift) new.
Proof.
  unfold _create_explosion. rewrite (bind_run _ _ _ _ _ eq_refl : _ = _).
  rewrite <- range_length.
  generalize (PySeq.range (sparks (self w))) as todo.
  destruct w as [s g]. cbn [self]. intros todo. revert g.
  induction todo as [| i todo IH]; intros g.
  - exists [], g. split; [reflexivity |]. split; [reflexivity | constructor].
  - cbn [for_yield]. unfold bind at 1. unfold bind at 1. unfold draw at 1.
    cbn [rng self].
    destruct (uniform 0 (2 * pi)%float g) as [angle g1].
    unfold bind at 1. unfold draw at 1. cbn [rng self].
    pose proof (uniform_range 0.6 1.6 g1 eq_refl) as [Hs1 Hs2].
    destruct (uniform 0.6 1.6 g1) as [speed g2]. cbn [fst] in Hs1, Hs2.
    unfold bind at 1. unfold draw at 1. cbn [rng self].
    pose proof (randint_range 18 40 g2 ltac:(lia)) as Hlife.
    destruct (randint 18 40 g2) as [life g3]. cbn [fst] in Hlife.
    unfold bind at 1. unfold draw at 1. cbn [rng self].
    pose proof (randrange_range (PySeq.len PALETTE) g3 eq_refl) as Hk.
    destruct (randrange (PySeq.len PALETTE) g3) as [k g4]. cbn [fst] in Hk.
    unfold bind at 1. change (PyNum.int_mod (hue_shift + k)
                                (PySeq.len PALETTE))
      with (@Ok Z ((hue_shift + k) mod PySeq.len PALETTE)).
    cbn [lift].
    destruct (palette_index ((hue_shift + k) mod PySeq.len PALETTE))
      as [colour Hcolour].
    { apply Z.mod_pos_bound. reflexivity. }
    unfold bind at 1. rewrite Hcolour. cbn [lift]. unfold ret at 1.
    destruct (IH g4) as (new & g' & Hrest & Hlen & Hall).
    unfold bind at 1. rewrite Hrest. unfold ret.
    exists (Particle.Build x y (cos angle * speed) (sin angle * speed)
                           life colour :: new), g'.
    split; [reflexivity |]. split; [cbn; rewrite Hlen; reflexivity |].
    constructor; [| exact Hall].
    unfold emitted. cbn [Particle.x Particle.y Particle.vx Particle.vy
                           Particle.life Particle.colour].
    repeat split; try lia.
    + exists angle, speed. repeat split; assumption.
    + exists k. split; [exact Hk | exact Hcolour].
Qed.

(** With its band in order [spawn_firework] returns, and appends one
    emitted particle for each spark. *)
Lemma spawn_firework_ok (w : world G) :
  band_in_order (width (self w)) (height (self w)) = true ->
  exists new x y hue_shift x_lo x_hi y_lo y_hi g',
    spawn_firework w
    = Ok (tt, World (set_particles (self w) (particles (self w) ++ new))
                    g') /\
    length new = Z.to_nat (sparks (self w)) /\
    spawn_band (width (self w)) (height (self w))
    = Ok (x_lo, x_hi, y_lo, y_hi) /\
    PrimFloat.leb x_lo x = true /\ PrimFloat.leb x x_hi = true /\
    PrimFloat.leb y_lo y = true /\ PrimFloat.leb y y_hi = true /\
    0 <= hue_shift < PySeq.len PALETTE /\
    Forall (emitted x y hue_shift) new.
Proof.
  intros Hband. unfold band_in_order in Hband.
  destruct (spawn_band (width (self w)) (height (self w)))
    as [[[[x_lo x_hi] y_lo] y_hi] | e] eqn:Hsb; [| discriminate].
  apply andb_true_iff in Hband as [Hx Hy].
  unfold spawn_band in Hsb.
  destruct (mul_float_int 0.2 (width (self w))) as [a1 |] eqn:E1;
    [| discriminate].
  destruct (mul_float_int 0.8 (width (self w))) as [a2 |] eqn:E2;
    [| discriminate].
  destruct (mul_float_int 0.2 (height (self w))) as [a3 |] eqn:E3;
    [| discriminate].
  destruct (mul_float_int 0.45 (height (self w))) as [a4 |] eqn:E4;
    [| discriminate].
  injection Hsb as -> -> -> ->.
  destruct w as [s g]. cbn [self] in *.
  unfold spawn_firework.
  unfold bind at 1. unfold draw at 1. cbn [rng self].
  destruct (uniform 6 12 g) as [radius g1].
  unfold bind at 1. unfold get at 1. cbn [self].
  unfold bind at 1. rewrite E1. cbn [lift].
  unfold bind at 1. rewrite E2. cbn [lift].
  unfold bind at 1. unfold draw at 1. cbn [rng self].
  pose proof (uniform_range x_lo x_hi g1 Hx) as [Hx1 Hx2].
  destruct (uniform x_lo x_hi g1) as [x g2]. cbn [fst] in Hx1, Hx2.
  unfold bind at 1. rewrite E3. cbn [lift].
  unfold bind at 1. rewrite E4. cbn [lift].
  unfold bind at 1. unfold draw at 1. cbn [rng self].
  pose proof (uniform_range y_lo y_hi g2 Hy) as [Hy1 Hy2].
  destruct (uniform y_lo y_hi g2) as [y g3]. cbn [fst] in Hy1, Hy2.
  unfold bind at 1. unfold draw at 1. cbn [rng self].
  pose proof (randrange_range (PySeq.len PALETTE) g3 eq_refl) as Hhue.
  destruct (randrange (PySeq.len PALETTE) g3) as [hue_shift g4].
  cbn [fst] in Hhue.
  destruct (create_explosion_ok x y radius hue_shift (World s g4))
    as (new & g' & Hnew & Hlen & Hall).
  unfold bind at 1. rewrite Hnew. cbn [self].
  exists new, x, y, hue_shift, x_lo, x_hi, y_lo, y_hi, g'.
  split; [reflexivity |]. split; [exact Hlen |].
  repeat (split; [first [reflexivity | assumption | lia] |]). exact Hall.
Qed.

(** C4.  In a show with a spark count that is not negative and a
    positive width and height (below [2^1000]: far larger sizes do not
    convert to a float), [spawn_firework] returns and appends exactly
    [sparks] particles to the live collection.  They share one position
    [(x, y)] with [0.2 * width <= x <= 0.8 * width] and
    [0.2 * height <= y <= 0.45 * height]; each has an integer [life]
    from 18 to 40, a velocity [(cos(angle) * speed, sin(angle) * speed)]
    for some angle and a speed from [0.6] to [1.6], and the colour
    [PALETTE[(hue_shift + random_index) % len(PALETTE)]] for one hue
    shift and a random index of its own. *)
Theorem spawn_firework_adds_sparks (w : world G) :
  0 <= sparks (self w) ->
  0 < width (self w) < 2 ^ 1000 -> 0 < height (self w) < 2 ^ 1000 ->
  exists new x y hue_shift x_lo x_hi y_lo y_hi g',
    spawn_firework w
    = Ok (tt, World (set_particles (self w) (particles (self w) ++ new))
                    g') /\
    Z.of_nat (length new) = sparks (self w) /\
    spawn_band (width (self w)) (height (self w))
    = Ok (x_lo, x_hi, y_lo, y_hi) /\
    PrimFloat.leb x_lo x = true /\ PrimFloat.leb x x_hi = true /\
    PrimFloat.leb y_lo y = true /\ PrimFloat.leb y y_hi = true /\
    0 <= hue_shift < PySeq.len PALETTE /\
    Forall (emitted x y hue_shift) new.
Proof.
  intros Hsparks Hwd Hht.
  pose proof (band_on_canvas_in_order _ _
                (band_on_canvas_positive _ _ Hwd Hht)) as Hband.
  destruct (spawn_firework_ok w Hband)
    as (new & x & y & hue_shift & x_lo & x_hi & y_lo & y_hi & g' & Hrun
        & Hlen & Hrest).
  exists new, x, y, hue_shift, x_lo, x_hi, y_lo, y_hi, g'.
  split; [exact Hrun |]. split; [rewrite Hlen; lia | exact Hrest].
Qed.

End Explosion.

(** ** [step] *)

Section Step.

Context {G : Type} {RS : RandomSource G} {RL : RandomLaws G} {LM : Libm}.

Import FireworkShow.

(** With no live particle the test of [step] is true and draws
    nothing. *)
Lemma spawn_due_empty (w : world G) :
  particles (self w) = [] -> spawn_due w = Ok (true, w).
Proof.
  intros Hnone. unfold spawn_due, bind, get. rewrite Hnone.
  destruct w; reflexivity.
Qed.

(** With a live particle the test draws an integer from 18 to 26 and
    compares [frame_counter] modulo that integer with zero. *)
Lemma spawn_due_drawn (w : world G) :
  particles (self w) <> [] ->
  let n := fst (randint 18 26 (rng w)) in
  18 <= n <= 26 /\
  spawn_due w
  = Ok (frame_counter (self w) mod n =? 0,
        World (self w) (snd (randint 18 26 (rng w)))).
Proof.
  intros Hsome n.
  pose proof (randint_range 18 26 (rng w) ltac:(lia)) as Hn. fold n in Hn.
  split; [exact Hn |].
  unfold spawn_due, bind, get.
  destruct (particles (self w)) as [| p ps]; [contradiction |].
  unfold draw. subst n.
  destruct (randint 18 26 (rng w)) as [n g']. cbn [fst snd] in *.
  unfold PyNum.int_mod. destruct (Z.eqb_spec n 0); [lia |]. reflexivity.
Qed.

(** C3, as the code behaves.  [step] spawns a firework exactly when
    its test says so, and then advances the frame.  With no live
    particle the test is true and draws nothing: the generator is handed
    to [spawn_firework] as it was.  With a live particle the test draws
    one integer from 18 to 26, anew on each call, and is true exactly
    when [frame_counter] modulo that integer is zero. *)
Theorem step_spawn_policy (w : world G) :
  (particles (self w) = [] -> spawn_due w = Ok (true, w)) /\
  (particles (self w) <> [] ->
   let n := fst (randint 18 26 (rng w)) in
   18 <= n <= 26 /\
   spawn_due w
   = Ok (frame_counter (self w) mod n =? 0,
         World (self w) (snd (randint 18 26 (rng w))))) /\
  step w = match spawn_due w with
           | Ok (true, w1) => bind spawn_firework (fun _ => advance_frame) w1
           | Ok (false, w1) => advance_frame w1
           | Raise e => Raise e
           end.
Proof.
  split; [apply spawn_due_empty | split; [apply spawn_due_drawn |]].
  unfold step. unfold bind at 1.
  destruct (spawn_due w) as [[[|] w1] | e]; reflexivity.
Qed.

Lemma on_canvas_same_size (s s' : t) (p : Particle.t) :
  width s' = width s -> height s' = height s ->
  on_canvas s' p = on_canvas s p.
Proof. unfold on_canvas. intros -> ->. reflexivity. Qed.

(** What the loop of [step] keeps is alive and on the canvas. *)
Lemma survivors_live (s : t) (ps : list Particle.t) :
  Forall (live_on_canvas s) (survivors s ps).
Proof.
  induction ps as [| p ps IH]; cbn [survivors]; [constructor |].
  pose proof (step_alive_life p (gravity s) (damping s)) as Hstep.
  destruct (Particle.step p (gravity s) (damping s)) as [p' alive].
  cbn [fst snd] in Hstep.
  destruct alive; [| exact IH].
  destruct (on_canvas s p') eqn:Hc; [| exact IH].
  constructor; [| exact IH]. split; [exact Hc | exact (Hstep eq_refl)].
Qed.

Lemma advance_frame_ok (w : world G) :
  advance_frame w
  = Ok (tt, World (set_frame_counter
                     (set_particles (self w)
                                    (survivors (self w) (particles (self w))))
                     (frame_counter (self w) + 1))
                  (rng w)).
Proof. reflexivity. Qed.

(** What a call of [spawn_firework] that returns has done. *)
Lemma spawn_firework_inv (w w' : world G) :
  spawn_firework w = Ok (tt, w') ->
  exists new x y hue_shift x_lo x_hi y_lo y_hi,
    self w' = set_particles (self w) (particles (self w) ++ new) /\
    spawn_band (width (self w)) (height (self w))
    = Ok (x_lo, x_hi, y_lo, y_hi) /\
    (PrimFloat.leb x_lo x_hi = true ->
     PrimFloat.leb x_lo x = true /\ PrimFloat.leb x x_hi = true) /\
    (PrimFloat.leb y_lo y_hi = true ->
     PrimFloat.leb y_lo y = true /\ PrimFloat.leb y y_hi = true) /\
    Forall (emitted x y hue_shift) new.
Proof.
  intros Hrun. unfold spawn_firework in Hrun.
  apply bind_ok in Hrun as (radius & w1 & Hb1 & Hrun).
  apply draw_ok in Hb1 as [_ ->].
  apply bind_ok in Hrun as (s & w2 & Hb2 & Hrun).
  unfold get in Hb2. injection Hb2 as <- <-. cbn [self rng] in Hrun.
  apply bind_ok in Hrun as (x_lo & w3 & Hb3 & Hrun).
  apply lift_ok in Hb3 as [E1 ->].
  apply bind_ok in Hrun as (x_hi & w4 & Hb4 & Hrun).
  apply lift_ok in Hb4 as [E2 ->].
  apply bind_ok in Hrun as (x & w5 & Hb5 & Hrun).
  apply draw_ok in Hb5 as [Hx ->]. cbn [self rng] in Hx, Hrun.
  apply bind_ok in Hrun as (y_lo & w6 & Hb6 & Hrun).
  apply lift_ok in Hb6 as [E3 ->].
  apply bind_ok in Hrun as (y_hi & w7 & Hb7 & Hrun).
  apply lift_ok in Hb7 as [E4 ->].
  apply bind_ok in Hrun as (y & w8 & Hb8 & Hrun).
  apply draw_ok in Hb8 as [Hy ->]. cbn [self rng] in Hy, Hrun.
  apply bind_ok in Hrun as (hue_shift & w9 & Hb9 & Hrun).
  apply draw_ok in Hb9 as [_ ->]. cbn [self rng] in Hrun.
  apply bind_ok in Hrun as (new & w10 & Hb10 & Hrun).
  match type of Hb10 with
  | _create_explosion _ _ _ _ ?w0 = _ =>
      destruct (create_explosion_ok x y radius hue_shift w0)
        as (new' & g' & Hnew & _ & Hall)
  end.
  rewrite Hnew in Hb10. injection Hb10 as <- <-. cbn [self] in Hrun.
  apply bind_ok in Hrun as (s' & w11 & Hb11 & Hrun).
  unfold get in Hb11. injection Hb11 as <- <-. cbn [self rng] in Hrun.
  unfold put in Hrun. injection Hrun as <-. cbn [self].
  exists new', x, y, hue_shift, x_lo, x_hi, y_lo, y_hi.
  split; [reflexivity |]. split.
  { unfold spawn_band. rewrite E1, E2, E3, E4. reflexivity. }
  split; [| split; [| exact Hall]].
  - intros Hord. subst x. apply uniform_range. exact Hord.
  - intros Hord. subst y. apply uniform_range. exact Hord.
Qed.

Lemma spawn_due_keeps_self : keeps_self (@spawn_due G _).
Proof.
  unfold spawn_due.
  apply keeps_self_bind; [auto with frame | intros s].
  destruct (particles s); [auto with frame |].
  repeat (apply keeps_self_bind; [auto with frame | intros ?]).
  auto with frame.
Qed.

(** After [step] the live collection holds only particles that are on
    the canvas and have a positive [life], and the size of the canvas
    is what it was. *)
Lemma step_leaves_live (w w' : world G) :
  step w = Ok (tt, w') ->
  Forall (live_on_canvas (self w')) (particles (self w')) /\
  width (self w') = width (self w) /\ height (self w') = height (self w).
Proof.
  intros Hstep. unfold step in Hstep.
  apply bind_ok in Hstep as (due & w1 & Hdue & Hrest).
  apply bind_ok in Hrest as (u & w2 & Hspawn & Hadv).
  apply spawn_due_keeps_self in Hdue.
  assert (Hsize : width (self w2) = width (self w) /\
                  height (self w2) = height (self w)).
  { destruct due.
    - destruct u.
      apply spawn_firework_inv in Hspawn as (new & ? & ? & ? & ? & ? & ? & ?
                                               & Hself & _).
      rewrite Hself, Hdue. split; reflexivity.
    - injection Hspawn as _ <-. rewrite Hdue. split; reflexivity. }
  destruct Hsize as [Hwd Hht].
  rewrite advance_frame_ok in Hadv. injection Hadv as <-.
  cbn [self particles width height set_frame_counter set_particles].
  split; [| split; assumption].
  eapply Forall_impl; [apply (survivors_live (self w2)) |].
  intros p [Hc Hl]. split; [| exact Hl].
  rewrite <- Hc. apply on_canvas_same_size; reflexivity.
Qed.

End Step.

(** ** The live collection *)

Section LiveCollection.

Context {G : Type} {RS : RandomSource G} {RL : RandomLaws G} {LM : Libm}.

Import FireworkShow.

(** A particle emitted inside a band that lies on the canvas is on the
    canvas, with a positive [life]. *)
Lemma emitted_live (s : t) (x y x_lo x_hi y_lo y_hi : float)
      (hue_shift : Z) (p : Particle.t) :
  band_on_canvas (width s) (height s) = true ->
  spawn_band (width s) (height s) = Ok (x_lo, x_hi, y_lo, y_hi) ->
  (PrimFloat.leb x_lo x_hi = true ->
   PrimFloat.leb x_lo x = true /\ PrimFloat.leb x x_hi = true) ->
  (PrimFloat.leb y_lo y_hi = true ->
   PrimFloat.leb y_lo y = true /\ PrimFloat.leb y y_hi = true) ->
  emitted x y hue_shift p -> live_on_canvas s p.
Proof.
  unfold band_on_canvas. intros Hband Hsb Hx Hy (Hpx & Hpy & Hlife & _).
  rewrite Hsb in Hband.
  repeat (apply andb_true_iff in Hband as [Hband ?]).
  destruct (Hx Hband) as [Hx1 Hx2]. destruct (Hy ltac:(assumption))
    as [Hy1 Hy2].
  split; [| lia]. unfold on_canvas, PyNum.int_le_float in *.
  rewrite Hpx, Hpy.
  rewrite (leb_float_ge_int x_lo x 0), (leb_float_lt_int x x_hi (width s)),
    (leb_float_ge_int y_lo y 0), (leb_float_lt_int y y_hi (height s));
    auto.
Qed.

Lemma live_finite (s : t) (p : Particle.t) :
  live_on_canvas s p -> finite_position p.
Proof.
  intros [Hc _]. unfold on_canvas, PyNum.int_le_float in Hc.
  apply andb_true_iff in Hc as [Hx Hy].
  apply andb_true_iff in Hx as [Hx0 Hx1].
  apply andb_true_iff in Hy as [Hy0 Hy1].
  split; eapply between_ints_finite; eassumption.
Qed.

Lemma spawn_due_ok (w : world G) :
  exists due g', spawn_due w = Ok (due, World (self w) g').
Proof.
  destruct (particles (self w)) as [| p ps] eqn:Hps.
  - exists true, (rng w). rewrite (spawn_due_empty w Hps).
    destruct w; reflexivity.
  - destruct (spawn_due_drawn w) as [_ Hdue]; [congruence |].
    eexists _, _. exact Hdue.
Qed.

Lemma step_ok (w : world G) :
  band_in_order (width (self w)) (height (self w)) = true ->
  exists w', step w = Ok (tt, w').
Proof.
  intros Hband. unfold step.
  destruct (spawn_due_ok w) as (due & g1 & Hdue).
  rewrite (bind_run _ _ _ _ _ Hdue).
  destruct due.
  - destruct (spawn_firework_ok (World (self w) g1) Hband)
      as (new & ? & ? & ? & ? & ? & ? & ? & g2 & Hspawn & _).
    rewrite (bind_run _ _ _ _ _ Hspawn), advance_frame_ok.
    eexists. reflexivity.
  - rewrite (bind_run _ _ _ _ _ eq_refl : _ = _), advance_frame_ok.
    eexists. reflexivity.
Qed.

(** C2.  [step] leaves in the live collection only particles with
    [0 <= x < width], [0 <= y < height] and [life > 0], whatever the
    show was.  For a positive width and height (below [2^1000]: far
    larger sizes do not convert to a float), every state reached from a
    new show by calls of [spawn_firework], [step] and [render] has all
    its live particles on the canvas with a positive [life], and each of
    the three calls returns from such a state. *)
Theorem live_particles_on_canvas (width height : Z) (gravity damping : float)
        (sparks : Z) :
  (forall w w' : world G,
      step w = Ok (tt, w') ->
      Forall (live_on_canvas (self w')) (particles (self w'))) /\
  (0 < width < 2 ^ 1000 -> 0 < height < 2 ^ 1000 ->
   forall w : world G,
     reachable width height gravity damping sparks w ->
     Forall (live_on_canvas (self w)) (particles (self w)) /\
     is_ok (spawn_firework w) = true /\ is_ok (step w) = true /\
     is_ok (render w) = true).
Proof.
  split; [intros w w' Hstep; apply (step_leaves_live w w' Hstep) |].
  intros Hwidth Hheight w Hreach.
  pose proof (band_on_canvas_positive _ _ Hwidth Hheight) as Hband.
  assert (Hinv : Forall (live_on_canvas (self w)) (particles (self w)) /\
                 FireworkShow.width (self w) = width /\
                 FireworkShow.height (self w) = height).
  { induction Hreach as [g | w w' _ IH Hspawn | w w' _ IH Hstep
                         | w w' frame _ IH Hrender].
    - cbn. repeat split. constructor.
    - destruct IH as (Hlive & Hwd & Hht).
      apply spawn_firework_inv in Hspawn
        as (new & x & y & hue & x_lo & x_hi & y_lo & y_hi & Hself & Hsb
            & Hx & Hy & Hall).
      rewrite Hself. cbn [particles FireworkShow.width FireworkShow.height
                            set_particles].
      repeat split; try assumption.
      apply Forall_app. split.
      + eapply Forall_impl; [exact Hlive |].
        intros p [Hc Hl]. split; [| exact Hl]. rewrite <- Hc.
        apply on_canvas_same_size; reflexivity.
      + eapply Forall_impl; [exact Hall |]. intros p Hp.
        destruct (emitted_live (self w) x y x_lo x_hi y_lo y_hi hue p)
          as [Hc Hl]; try assumption.
        { rewrite Hwd, Hht. exact Hband. }
        split; [| exact Hl]. rewrite <- Hc.
        apply on_canvas_same_size; reflexivity.
    - destruct IH as (_ & Hwd & Hht).
      destruct (step_leaves_live w w' Hstep) as (Hlive & Hwd' & Hht').
      repeat split; congruence.
    - rewrite (render_keeps_self w frame w' Hrender). exact IH. }
  destruct Hinv as (Hlive & Hwd & Hht).
  split; [exact Hlive |].
  pose proof (band_on_canvas_in_order _ _ Hband) as Hord.
  rewrite <- Hwd, <- Hht in Hord.
  split; [| split].
  - destruct (spawn_firework_ok w Hord)
      as (? & ? & ? & ? & ? & ? & ? & ? & ? & Hspawn & _).
    rewrite Hspawn. reflexivity.
  - destruct (step_ok w Hord) as [w' Hstep].
    rewrite Hstep. reflexivity.
  - destruct (render_runs w) as (? & ? & w' & Hrender & _).
    { eapply Forall_impl; [exact Hlive |]. apply live_finite. }
    rewrite Hrender. reflexivity.
Qed.

End LiveCollection.

(** ** The theorems at work on concrete shows *)

Section Concrete.

Import FireworkShow.

#[local] Existing Instance poly_libm.
#[local] Existing Instance strict_clock.
#[local] Existing Instance plain_unicode.

(** C3, as stated, fails: on a show with no live particle [step] draws
    no integer from 18 to 26 at all.  Its first draw is the radius of
    the explosion, [uniform(6.0, 12.0)]. *)
Lemma step_of_empty_show_draws_no_modulus :
  particles (self fresh_world) = [] /\
  first_draw step fresh_world = Some (Lcg.Uniform 6 12) /\
  first_draw step fresh_world <> Some (Lcg.Randint 18 26) /\
  ~ In (Lcg.Randint 18 26) (draws_of step fresh_world).
Proof.
  split; [reflexivity |].
  assert (Hfirst : first_draw step fresh_world = Some (Lcg.Uniform 6 12))
    by (vm_compute; reflexivity).
  split; [exact Hfirst |]. split; [rewrite Hfirst; discriminate |].
  assert (Hdraws : forallb (fun c => match c with
                                     | Lcg.Randint 18 26 => false
                                     | _ => true
                                     end) (draws_of step fresh_world)
                   = true) by (vm_compute; reflexivity).
  intros Hin. rewrite forallb_forall in Hdraws.
  specialize (Hdraws _ Hin). discriminate Hdraws.
Qed.

(** The show of 10 by 10 after one [step]: four particles, all on the
    canvas and alive. *)
Lemma live_particles_on_canvas_witness :
  0 < 10 < 2 ^ 1000 /\
  length (particles (self stepped_world)) = 4%nat /\
  Forall (live_on_canvas (self stepped_world))
         (particles (self stepped_world)).
Proof.
  split; [split; reflexivity |].
  split; [vm_compute; reflexivity |].
  apply (proj2 (live_particles_on_canvas 10 10 0.12 0.92 5)).
  - split; reflexivity.
  - split; reflexivity.
  - apply reach_step with (w := fresh_world); [apply reach_init |].
    vm_compute; reflexivity.
Defined.

(** The test of [step] on the new show, which is empty, and on the show
    after one [step], which is not. *)
Lemma step_spawn_policy_witness :
  spawn_due fresh_world = Ok (true, fresh_world) /\
  (let n := fst (randint 18 26 (rng stepped_world)) in
   18 <= n <= 26 /\
   spawn_due stepped_world
   = Ok (frame_counter (self stepped_world) mod n =? 0,
         World (self stepped_world)
               (snd (randint 18 26 (rng stepped_world))))).
Proof.
  split.
  - apply (proj1 (step_spawn_policy fresh_world)). reflexivity.
  - apply (proj1 (proj2 (step_spawn_policy stepped_world))).
    vm_compute. discriminate.
Defined.

(** [spawn_firework] on the new show of 10 by 10 with 5 sparks. *)
Lemma spawn_firework_adds_sparks_witness :
  0 <= sparks (self fresh_world) /\
  0 < width (self fresh_world) < 2 ^ 1000 /\
  0 < height (self fresh_world) < 2 ^ 1000 /\
  exists new x y hue_shift x_lo x_hi y_lo y_hi g',
    spawn_firework fresh_world
    = Ok (tt, World (set_particles (self fresh_world)
                                   (particles (self fresh_world) ++ new))
                    g') /\
    Z.of_nat (length new) = sparks (self fresh_world) /\
    spawn_band (width (self fresh_world)) (height (self fresh_world))
    = Ok (x_lo, x_hi, y_lo, y_hi) /\
    PrimFloat.leb x_lo x = true /\ PrimFloat.leb x x_hi = true /\
    PrimFloat.leb y_lo y = true /\ PrimFloat.leb y y_hi = true /\
    0 <= hue_shift < PySeq.len PALETTE /\
    Forall (emitted x y hue_shift) new.
Proof.
  split; [vm_compute; discriminate |].
  split; [split; reflexivity |]. split; [split; reflexivity |].
  apply (spawn_firework_adds_sparks fresh_world).
  - vm_compute; discriminate.
  - split; reflexivity.
  - split; reflexivity.
Defined.

(** Two seeded runs in different terminals, from different generator
    states, print the same. *)
Lemma seeded_run_deterministic_witness :
  startup_rng (fst first_run) <> startup_rng (fst second_run) /\
  terminal_size (fst first_run) <> terminal_size (fst second_run) /\
  main (fst first_run) (snd first_run)
  = main (fst second_run) (snd second_run).
Proof.
  split; [discriminate |]. split; [discriminate |].
  apply (seeded_run_deterministic (fst first_run) (fst second_run)
           (snd first_run) (snd second_run) 5);
    try reflexivity.
  discriminate.
Defined.

End Concrete.

(** * More of the program *)

Section ParticleLife.

Lemma step_dead (p : Particle.t) (gravity damping : float) :
  Particle.life p <= 0 -> Particle.step p gravity damping = (p, false).
Proof.
  intros Hdead. unfold Particle.step.
  destruct (Z.leb_spec (Particle.life p) 0); [reflexivity | lia].
Qed.

Lemma step_life (p : Particle.t) (gravity damping : float) :
  0 <= Particle.life p ->
  Particle.life (fst (Particle.step p gravity damping))
  = Z.max 0 (Particle.life p - 1).
Proof.
  intros Hlife. unfold Particle.step.
  destruct (Z.leb_spec (Particle.life p) 0); cbn [fst Particle.life]; lia.
Qed.

Lemma step_times_life (k : nat) (p : Particle.t) (gravity damping : float) :
  0 <= Particle.life p ->
  Particle.life (step_times k p gravity damping)
  = Z.max 0 (Particle.life p - Z.of_nat k).
Proof.
  revert p. induction k as [| k IH]; intros p Hlife; cbn [step_times].
  - lia.
  - rewrite IH by (rewrite step_life by exact Hlife; lia).
    rewrite step_life by exact Hlife. lia.
Qed.

(** X1.  A particle with [life] frames left, none negative, has
    [max 0 (life - k)] left after [k] calls of [Particle.step]; the call
    number [life] at the latest returns [False], and once the life is
    spent further calls change nothing. *)
Theorem particle_dies_on_time (p : Particle.t) (gravity damping : float)
        (k : nat) :
  0 <= Particle.life p ->
  Particle.life (step_times k p gravity damping)
  = Z.max 0 (Particle.life p - Z.of_nat k) /\
  (Particle.life p <= Z.of_nat k + 1 ->
   snd (Particle.step (step_times k p gravity damping) gravity damping)
   = false) /\
  (Particle.life p <= Z.of_nat k ->
   forall k' : nat, (k <= k')%nat ->
     step_times k' p gravity damping = step_times k p gravity damping).
Proof.
  intros Hlife. split; [apply step_times_life, Hlife |]. split.
  - intros Hk. pose proof (step_times_life k p gravity damping Hlife) as Hl.
    unfold Particle.step.
    destruct (Z.leb_spec (Particle.life (step_times k p gravity damping)) 0);
      cbn [snd]; [reflexivity |].
    apply andb_false_iff. left. apply Z.ltb_ge. lia.
  - intros Hk k' Hk'.
    replace k' with ((k' - k) + k)%nat by lia.
    generalize (k' - k)%nat as extra. intros extra. clear k' Hk'.
    assert (Hdead : Particle.life (step_times k p gravity damping) <= 0).
    { rewrite step_times_life by exact Hlife. lia. }
    revert p Hlife Hk Hdead. induction k as [| k IH]; intros p Hlife Hk Hdead.
    + rewrite Nat.add_0_r. cbn [step_times] in *.
      induction extra as [| extra IHe]; cbn [step_times]; [reflexivity |].
      rewrite step_dead by exact Hdead. exact IHe.
    + rewrite Nat.add_succ_r. cbn [step_times] in *.
      apply IH; [rewrite step_life by exact Hlife; lia
                | rewrite step_life by exact Hlife; lia | exact Hdead].
Qed.

End ParticleLife.

Section Frames.

Context {G : Type} {RS : RandomSource G} {RL : RandomLaws G} {LM : Libm}.

Import FireworkShow.

(** What a call of [spawn_firework] that returns has added. *)
Lemma spawn_firework_adds (w w' : world G) :
  spawn_firework w = Ok (tt, w') ->
  exists new x y hue_shift,
    self w' = set_particles (self w) (particles (self w) ++ new) /\
    length new = Z.to_nat (sparks (self w)) /\
    Forall (emitted x y hue_shift) new.
Proof.
  intros Hrun. unfold spawn_firework in Hrun.
  apply bind_ok in Hrun as (radius & w1 & Hb1 & Hrun).
  apply draw_ok in Hb1 as [_ ->].
  apply bind_ok in Hrun as (s & w2 & Hb2 & Hrun).
  unfold get in Hb2. injection Hb2 as <- <-. cbn [self rng] in Hrun.
  apply bind_ok in Hrun as (x_lo & w3 & Hb3 & Hrun).
  apply lift_ok in Hb3 as [_ ->].
  apply bind_ok in Hrun as (x_hi & w4 & Hb4 & Hrun).
  apply lift_ok in Hb4 as [_ ->].
  apply bind_ok in Hrun as (x & w5 & Hb5 & Hrun).
  apply draw_ok in Hb5 as [_ ->]. cbn [self rng] in Hrun.
  apply bind_ok in Hrun as (y_lo & w6 & Hb6 & Hrun).
  apply lift_ok in Hb6 as [_ ->].
  apply bind_ok in Hrun as (y_hi & w7 & Hb7 & Hrun).
  apply lift_ok in Hb7 as [_ ->].
  apply bind_ok in Hrun as (y & w8 & Hb8 & Hrun).
  apply draw_ok in Hb8 as [_ ->]. cbn [self rng] in Hrun.
  apply bind_ok in Hrun as (hue_shift & w9 & Hb9 & Hrun).
  apply draw_ok in Hb9 as [_ ->]. cbn [self rng] in Hrun.
  apply bind_ok in Hrun as (new & w10 & Hb10 & Hrun).
  match type of Hb10 with
  | _create_explosion _ _ _ _ ?w0 = _ =>
      destruct (create_explosion_ok x y radius hue_shift w0)
        as (new' & g' & Hnew & Hlen & Hall)
  end.
  rewrite Hnew in Hb10. injection Hb10 as <- <-. cbn [self] in Hrun, Hlen.
  apply bind_ok in Hrun as (s' & w11 & Hb11 & Hrun).
  unfold get in Hb11. injection Hb11 as <- <-. cbn [self rng] in Hrun.
  unfold put in Hrun. injection Hrun as <-. cbn [self].
  exists new', x, y, hue_shift. repeat split; assumption.
Qed.

(** The loop of [step] reads the physics constants and the size of the
    show, nothing else. *)
Lemma survivors_same (s s' : t) (ps : list Particle.t) :
  gravity s' = gravity s -> damping s' = damping s ->
  width s' = width s -> height s' = height s ->
  survivors s' ps = survivors s ps.
Proof.
  intros Hg Hd Hw Hh. induction ps as [| p ps IH]; cbn [survivors];
    [reflexivity |].
  rewrite Hg, Hd, IH.
  destruct (Particle.step p (gravity s) (damping s)) as [p' alive].
  unfold on_canvas. rewrite Hw, Hh. reflexivity.
Qed.

(** What a call of [step] that returns has done. *)
Lemma step_inv (w w' : world G) :
  step w = Ok (tt, w') ->
  exists new,
    self w'
    = set_frame_counter
        (set_particles (self w)
                       (survivors (self w) (particles (self w) ++ new)))
        (frame_counter (self w) + 1) /\
    (new = [] \/
     length new = Z.to_nat (sparks (self w)) /\
     exists x y hue_shift, Forall (emitted x y hue_shift) new) /\
    (particles (self w) = [] -> length new = Z.to_nat (sparks (self w))).
Proof.
  intros Hstep. unfold step in Hstep.
  apply bind_ok in Hstep as (due & w1 & Hdue & Hrest).
  apply bind_ok in Hrest as (u & w2 & Hspawn & Hadv).
  pose proof (spawn_due_keeps_self _ _ _ Hdue) as Hself1.
  rewrite advance_frame_ok in Hadv. injection Hadv as <-. cbn [self].
  destruct due.
  - destruct u. apply spawn_firework_adds in Hspawn
      as (new & x & y & hue & Hself & Hlen & Hall).
    rewrite Hself1 in Hself, Hlen. exists new. split; [| split].
    + rewrite Hself. unfold set_frame_counter, set_particles.
      cbn [particles frame_counter width height gravity damping sparks].
      rewrite (survivors_same (self w)) by reflexivity. reflexivity.
    + right. split; [exact Hlen |]. exists x, y, hue. exact Hall.
    + intros _. exact Hlen.
  - injection Hspawn as _ <-. rewrite Hself1. exists []. split; [| split].
    + rewrite app_nil_r. reflexivity.
    + left. reflexivity.
    + intros Hnone. exfalso.
      rewrite (spawn_due_empty w Hnone) in Hdue. discriminate Hdue.
Qed.

Lemma survivors_length (s : t) (ps : list Particle.t) :
  (length (survivors s ps) <= length ps)%nat.
Proof.
  induction ps as [| p ps IH]; cbn [survivors length]; [lia |].
  destruct (Particle.step p (gravity s) (damping s)) as [p' [|]];
    [destruct (on_canvas s p'); cbn [length]; lia | lia].
Qed.

(** X2.  A call of [step] that returns leaves the size, the physics
    constants and the spark count alone and adds one to the frame
    counter.  It makes the test first; when the test says so, which it
    does on an empty show, it calls [spawn_firework], and the list [new]
    that call appends is one explosion: [max 0 sparks] sparks emitted
    at one place; otherwise nothing is appended and no further draw is
    made.  The new collection is what the loop keeps of the old
    particles followed by [new], so the sparks just spawned are moved in
    the same frame, and it has grown by [max 0 sparks] at most. *)
Theorem step_effect (w w' : world G) :
  step w = Ok (tt, w') ->
  width (self w') = width (self w) /\ height (self w') = height (self w) /\
  gravity (self w') = gravity (self w) /\
  damping (self w') = damping (self w) /\
  sparks (self w') = sparks (self w) /\
  frame_counter (self w') = frame_counter (self w) + 1 /\
  exists (due : bool) (w1 : world G) (new : list Particle.t),
    spawn_due w = Ok (due, w1) /\ self w1 = self w /\
    (particles (self w) = [] -> due = true) /\
    (if due
     then spawn_firework w1
          = Ok (tt, World (set_particles (self w)
                                         (particles (self w) ++ new))
                          (rng w')) /\
          Z.of_nat (length new) = Z.max 0 (sparks (self w)) /\
          exists x y hue_shift, Forall (emitted x y hue_shift) new
     else new = [] /\ rng w' = rng w1) /\
    particles (self w') = survivors (self w) (particles (self w) ++ new) /\
    Z.of_nat (length (particles (self w')))
    <= Z.of_nat (length (particles (self w))) + Z.max 0 (sparks (self w)).
Proof.
  intros Hstep.
  destruct (step_inv w w' Hstep) as (new0 & Hself & Hnew0 & _).
  rewrite Hself. cbn [width height gravity damping sparks frame_counter
                        particles set_frame_counter set_particles].
  repeat (split; [reflexivity |]).
  unfold step in Hstep.
  apply bind_ok in Hstep as (due & w1 & Hdue & Hrest).
  apply bind_ok in Hrest as (u & w2 & Hspawn & Hadv).
  pose proof (spawn_due_keeps_self _ _ _ Hdue) as Hself1.
  rewrite advance_frame_ok in Hadv. injection Hadv as Hw'.
  assert (Hbound : forall new : list Particle.t,
             Z.of_nat (length new) <= Z.max 0 (sparks (self w)) ->
             Z.of_nat (length (survivors (self w)
                                         (particles (self w) ++ new)))
             <= Z.of_nat (length (particles (self w)))
                + Z.max 0 (sparks (self w))).
  { intros new Hlen.
    pose proof (survivors_length (self w) (particles (self w) ++ new)) as Hs.
    rewrite length_app in Hs. lia. }
  assert (Hforced : particles (self w) = [] -> due = true).
  { intros Hnone. rewrite (spawn_due_empty w Hnone) in Hdue.
    injection Hdue as <- _. reflexivity. }
  destruct due.
  - destruct u.
    destruct (spawn_firework_adds _ _ Hspawn)
      as (new & x & y & hue & Hself2 & Hlen & Hall).
    rewrite Hself1 in Hself2, Hlen.
    exists true, w1, new. split; [exact Hdue |]. split; [exact Hself1 |].
    split; [exact Hforced |].
    assert (Hw2 : w2 = World (set_particles (self w)
                                            (particles (self w) ++ new))
                             (rng w')).
    { rewrite <- Hw'. cbn [rng]. rewrite <- Hself2. destruct w2; reflexivity. }
    split; [| split].
    + split; [rewrite Hspawn, Hw2; reflexivity |].
      split; [lia |]. exists x, y, hue. exact Hall.
    + assert (Hparts : particles (self w')
                       = survivors (self w) (particles (self w) ++ new)).
      { rewrite <- Hw', Hself2. cbn [self particles set_frame_counter
                                       set_particles].
        apply survivors_same; reflexivity. }
      rewrite Hself in Hparts.
      cbn [particles set_frame_counter set_particles] in Hparts.
      exact Hparts.
    + assert (Hparts : particles (self w')
                       = survivors (self w) (particles (self w) ++ new)).
      { rewrite <- Hw', Hself2. cbn [self particles set_frame_counter
                                       set_particles].
        apply survivors_same; reflexivity. }
      rewrite Hself in Hparts.
      cbn [particles set_frame_counter set_particles] in Hparts.
      rewrite Hparts. apply Hbound. lia.
  - injection Hspawn as _ <-.
    exists false, w1, []. split; [exact Hdue |]. split; [exact Hself1 |].
    split; [exact Hforced |].
    assert (Hparts : particles (self w')
                     = survivors (self w) (particles (self w) ++ [])).
    { rewrite <- Hw', Hself1, app_nil_r. reflexivity. }
    rewrite Hself in Hparts.
    cbn [particles set_frame_counter set_particles] in Hparts.
    split; [split; [reflexivity | rewrite <- Hw'; reflexivity] |].
    split; [exact Hparts |].
    rewrite Hparts. apply Hbound. cbn. lia.
Qed.

End Frames.

Section Population.

Context {G : Type} {RS : RandomSource G} {RL : RandomLaws G} {LM : Libm}.

Import FireworkShow.

Lemma count_above_app (j : Z) (ps qs : list Particle.t) :
  count_above j (ps ++ qs) = count_above j ps + count_above j qs.
Proof.
  unfold count_above. rewrite List.filter_app, length_app. lia.
Qed.

Lemma count_above_cons (j : Z) (p : Particle.t) (ps : list Particle.t) :
  count_above j (p :: ps)
  = (if j <? Particle.life p then 1 else 0) + count_above j ps.
Proof.
  unfold count_above. cbn [List.filter].
  destruct (j <? Particle.life p); cbn [length]; lia.
Qed.

Lemma count_above_nonneg (j : Z) (ps : list Particle.t) :
  0 <= count_above j ps <= Z.of_nat (length ps).
Proof.
  unfold count_above. pose proof (List.filter_length_le
    (fun p => j <? Particle.life p) ps). lia.
Qed.

(** A particle the loop of [step] keeps had one more frame of life. *)
Lemma survivors_count (s : t) (j : Z) (ps : list Particle.t) :
  0 <= j -> count_above j (survivors s ps) <= count_above (j + 1) ps.
Proof.
  intros Hj. induction ps as [| p ps IH]; cbn [survivors]; [reflexivity |].
  rewrite (count_above_cons (j + 1)).
  pose proof (count_above_nonneg j (survivors s ps)) as Hn.
  unfold Particle.step.
  destruct (Z.leb_spec (Particle.life p) 0) as [Hdead | Hlive].
  - destruct (j + 1 <? Particle.life p); lia.
  - destruct (_ && _).
    + destruct (on_canvas s _).
      * rewrite count_above_cons. cbn [Particle.life].
        destruct (Z.ltb_spec j (Particle.life p - 1)),
          (Z.ltb_spec (j + 1) (Particle.life p)); lia.
      * destruct (j + 1 <? Particle.life p); lia.
    + destruct (j + 1 <? Particle.life p); lia.
Qed.

Lemma count_above_short_lived (j : Z) (ps : list Particle.t) :
  Forall (fun p => Particle.life p <= j) ps -> count_above j ps = 0.
Proof.
  induction 1 as [| p ps Hp _ IH]; [reflexivity |].
  rewrite count_above_cons, IH.
  destruct (Z.ltb_spec j (Particle.life p)); lia.
Qed.

Lemma count_above_zero (j : Z) (ps : list Particle.t) :
  count_above j ps = 0 -> Forall (fun p => Particle.life p <= j) ps.
Proof.
  induction ps as [| p ps IH]; [constructor |].
  rewrite count_above_cons. pose proof (count_above_nonneg j ps).
  destruct (Z.ltb_spec j (Particle.life p)); intros Hc; [lia |].
  constructor; [lia | apply IH; lia].
Qed.

Lemma count_above_all (ps : list Particle.t) :
  Forall (fun p => 0 < Particle.life p) ps ->
  count_above 0 ps = Z.of_nat (length ps).
Proof.
  induction 1 as [| p ps Hp _ IH]; [reflexivity |].
  rewrite count_above_cons, IH. cbn [length].
  destruct (Z.ltb_spec 0 (Particle.life p)); lia.
Qed.

(** What every state of the loop of [main] satisfies. *)
Lemma driven_inv (width0 height0 : Z) (gravity0 damping0 : float)
      (sparks0 : Z) (n : nat) (w : world G) :
  driven width0 height0 gravity0 damping0 sparks0 n w ->
  (width (self w) = width0 /\ height (self w) = height0 /\
   gravity (self w) = gravity0 /\ damping (self w) = damping0 /\
   sparks (self w) = sparks0 /\ frame_counter (self w) = Z.of_nat n) /\
  Forall (live_on_canvas (self w)) (particles (self w)) /\
  forall j, 0 <= j ->
    count_above j (particles (self w))
    <= Z.max 0 (39 - j) * Z.max 0 sparks0.
Proof.
  induction 1 as [g | n w w' _ IH Hstep | n w w' frame _ IH Hrender].
  - cbn. split; [repeat split |]. split; [constructor |].
    intros j Hj. change (count_above j []) with 0.
    apply Z.mul_nonneg_nonneg; lia.
  - destruct IH as ((Hwd & Hht & Hgr & Hda & Hsp & Hfc) & Hlive & Hcount).
    destruct (step_inv w w' Hstep) as (new & Hself & Hnew & _).
    split; [| split].
    + rewrite Hself. cbn. repeat split; try assumption. lia.
    + apply (step_leaves_live w w' Hstep).
    + intros j Hj. rewrite Hself.
      cbn [particles set_frame_counter set_particles].
      eapply Z.le_trans; [apply survivors_count; exact Hj |].
      rewrite count_above_app.
      pose proof (Hcount (j + 1) ltac:(lia)) as Hold.
      assert (Hn : count_above (j + 1) new
                   <= if j <? 39 then Z.max 0 sparks0 else 0).
      { destruct Hnew as [-> | [Hlen (x & y & hue & Hall)]].
        - unfold count_above. cbn. destruct (j <? 39); lia.
        - destruct (Z.ltb_spec j 39) as [Hlt | Hge].
          + pose proof (count_above_nonneg (j + 1) new). lia.
          + rewrite count_above_short_lived; [lia |].
            eapply Forall_impl; [exact Hall |].
            intros p (_ & _ & Hl & _). lia. }
      destruct (Z.ltb_spec j 39); nia.
  - destruct IH as (Hfields & Hlive & Hcount).
    rewrite (render_keeps_self w frame w' Hrender).
    split; [exact Hfields |]. split; [exact Hlive | exact Hcount].
Qed.

(** X3.  Through the loop of [main], after [n] calls of [step] that
    returned, the frame counter is [n], and the size, the constants and
    the spark count are those the show was built with. *)
Theorem driven_frame_counter (width0 height0 : Z) (gravity0 damping0 : float)
        (sparks0 : Z) (n : nat) (w : world G) :
  driven width0 height0 gravity0 damping0 sparks0 n w ->
  frame_counter (self w) = Z.of_nat n /\
  width (self w) = width0 /\ height (self w) = height0 /\
  gravity (self w) = gravity0 /\ damping (self w) = damping0 /\
  sparks (self w) = sparks0.
Proof.
  intros Hd. destruct (driven_inv _ _ _ _ _ _ _ Hd) as (Hf & _).
  tauto.
Qed.

(** X4.  Through the loop of [main] the show never holds more than
    [39 * max 0 sparks] particles, and each of them has from 1 to 39
    frames left: a spark is born with 40 at most and loses one in the
    frame it is spawned in. *)
Theorem driven_population_bounded (width0 height0 : Z)
        (gravity0 damping0 : float) (sparks0 : Z) (n : nat) (w : world G) :
  driven width0 height0 gravity0 damping0 sparks0 n w ->
  Z.of_nat (length (particles (self w))) <= 39 * Z.max 0 sparks0 /\
  Forall (fun p => 1 <= Particle.life p <= 39) (particles (self w)).
Proof.
  intros Hd. destruct (driven_inv _ _ _ _ _ _ _ Hd) as (_ & Hlive & Hcount).
  assert (Hpos : Forall (fun p => 0 < Particle.life p) (particles (self w))).
  { eapply Forall_impl; [exact Hlive |]. intros p [_ Hl]. exact Hl. }
  split.
  - rewrite <- (count_above_all _ Hpos).
    pose proof (Hcount 0 ltac:(lia)). lia.
  - pose proof (Hcount 39 ltac:(lia)) as H39.
    pose proof (count_above_nonneg 39 (particles (self w))).
    assert (Hshort : Forall (fun p => Particle.life p <= 39)
                            (particles (self w)))
      by (apply count_above_zero; lia).
    rewrite List.Forall_forall in *. intros p Hp.
    specialize (Hpos p Hp). specialize (Hshort p Hp). lia.
Qed.

End Population.

Section NoSparks.

Context {G : Type} {RS : RandomSource G} {RL : RandomLaws G} {LM : Libm}.

Import FireworkShow.

(** With no live particle [render] returns the blank frame and leaves the
    generator alone. *)
Lemma render_blank (w : world G) :
  particles (self w) = [] ->
  render w
  = Ok (PySeq.join NL (repeat (spaces (Z.to_nat (width (self w))))
                              (Z.to_nat (height (self w)))), w).
Proof.
  intros Hnone.
  destruct (render_runs w) as (canvas & colour_map & w' & Hrender & Hok
                               & Hblank).
  { rewrite Hnone. constructor. }
  destruct (Hblank Hnone) as (-> & -> & ->).
  destruct (zip_grids_ok _ _ _ Hok) as (Hfmt & _).
  rewrite Hrender, Hfmt, blank_rows. reflexivity.
Qed.

(** X5.  A show built with [sparks <= 0], for which [range(sparks)] is
    empty, never holds a particle, whatever is called on it, and its
    frame is blank: [height] lines of [width] spaces, with no draw from
    the generator. *)
Theorem no_sparks_no_particles (width0 height0 : Z)
        (gravity0 damping0 : float) (sparks0 : Z) (w : world G) :
  sparks0 <= 0 ->
  reachable width0 height0 gravity0 damping0 sparks0 w ->
  particles (self w) = [] /\
  render w
  = Ok (PySeq.join NL (repeat (spaces (Z.to_nat width0)) (Z.to_nat height0)),
        w).
Proof.
  intros Hsparks Hreach.
  assert (Hinv : particles (self w) = [] /\ sparks (self w) = sparks0 /\
                 width (self w) = width0 /\ height (self w) = height0).
  { induction Hreach as [g | w w' _ IH Hspawn | w w' _ IH Hstep
                         | w w' frame _ IH Hrender].
    - repeat split.
    - destruct IH as (Hnone & Hsp & Hwd & Hht).
      apply spawn_firework_adds in Hspawn
        as (new & x & y & hue & Hself & Hlen & _).
      rewrite Hsp in Hlen. destruct new; [| cbn in Hlen; lia].
      rewrite Hself, Hnone. repeat split; assumption.
    - destruct IH as (Hnone & Hsp & Hwd & Hht).
      destruct (step_inv w w' Hstep) as (new & Hself & Hnew & _).
      assert (new = []) as ->.
      { destruct Hnew as [-> | [Hlen _]]; [reflexivity |].
        rewrite Hsp in Hlen. destruct new; [reflexivity | cbn in Hlen; lia]. }
      rewrite Hself, Hnone. repeat split; assumption.
    - rewrite (render_keeps_self w frame w' Hrender). exact IH. }
  destruct Hinv as (Hnone & _ & Hwd & Hht).
  split; [exact Hnone |]. rewrite (render_blank w Hnone), Hwd, Hht.
  reflexivity.
Qed.

End NoSparks.

Section SizeFlag.

Context {U : Unicode}.

Lemma lower_char_lower (c : ascii) :
  PyStr.lower_char (PyStr.lower_char c) = PyStr.lower_char c.
Proof.
  destruct c as [[|] [|] [|] [|] [|] [|] [|] [|]]; reflexivity.
Qed.

Lemma lower_char_ascii (c : ascii) :
  PyStr.is_ascii_char (PyStr.lower_char c) = PyStr.is_ascii_char c.
Proof.
  destruct c as [[|] [|] [|] [|] [|] [|] [|] [|]]; reflexivity.
Qed.

Lemma ascii_lower_lower (s : string) :
  PyStr.ascii_lower (PyStr.ascii_lower s) = PyStr.ascii_lower s.
Proof.
  induction s as [| c s IH]; cbn [PyStr.ascii_lower]; [reflexivity |].
  rewrite lower_char_lower, IH. reflexivity.
Qed.

Lemma ascii_lower_ascii (s : string) :
  PyStr.is_ascii (PyStr.ascii_lower s) = PyStr.is_ascii s.
Proof.
  induction s as [| c s IH]; cbn [PyStr.ascii_lower PyStr.is_ascii];
    [reflexivity |].
  rewrite lower_char_ascii, IH. reflexivity.
Qed.

(** On ASCII text [lower] is the lowering of [A] to [Z], and lowering
    again changes nothing. *)
Lemma lower_lower (s : string) :
  PyStr.is_ascii s = true ->
  PyStr.lower s = PyStr.ascii_lower s /\
  PyStr.lower (PyStr.lower s) = PyStr.lower s.
Proof.
  intros Hascii. unfold PyStr.lower. rewrite Hascii, ascii_lower_ascii, Hascii.
  split; [reflexivity | apply ascii_lower_lower].
Qed.

(** The one exception [detect_size] raises. *)
Lemma detect_size_raises (terminal : Z * Z) (size_flag : string) (e : exn) :
  detect_size terminal size_flag = Raise e ->
  e = ArgumentTypeError SIZE_MESSAGE.
Proof.
  destruct (String.eqb_spec size_flag "auto") as [-> | Hne].
  - destruct terminal. discriminate.
  - destruct (detect_size_explicit_cases terminal size_flag Hne)
      as [(a & b & w & h & _ & _ & _ & Hok) | Hr]; rewrite ?Hok, ?Hr;
      [discriminate | intros [= <-]; reflexivity].
Qed.

(** X9.  [detect_size] lowers the letters of the size before it parses
    it, so an explicit size in ASCII reads the same in any letter case,
    as ["120X40"]; but it compares with ["auto"] before, so ["AUTO"],
    as every other size that only lowers to ["auto"], is rejected.  The
    argument error is the only exception it raises, on any string: a
    literal [int] refuses, for a character that is no digit, for white
    space it does not skip or for its length, ends there as well. *)
Theorem size_flag_letter_case :
  (forall terminal size_flag,
      PyStr.is_ascii size_flag = true ->
      size_flag <> "auto"%string -> PyStr.lower size_flag <> "auto"%string ->
      detect_size terminal size_flag
      = detect_size terminal (PyStr.lower size_flag)) /\
  (forall terminal size_flag,
      size_flag <> "auto"%string -> PyStr.lower size_flag = "auto"%string ->
      detect_size terminal size_flag
      = Raise (ArgumentTypeError SIZE_MESSAGE)) /\
  (forall terminal size_flag e,
      detect_size terminal size_flag = Raise e ->
      e = ArgumentTypeError SIZE_MESSAGE) /\
  (forall terminal,
      detect_size terminal "120X40" = Ok (120, 40) /\
      detect_size terminal "AUTO" = Raise (ArgumentTypeError SIZE_MESSAGE) /\
      detect_size terminal (String "031" "12x5")
      = Raise (ArgumentTypeError SIZE_MESSAGE)).
Proof.
  split; [| split; [| split]].
  - intros terminal size_flag Hascii Hne Hlow.
    destruct (lower_lower size_flag Hascii) as [_ Hidem].
    unfold detect_size.
    apply String.eqb_neq in Hne, Hlow. rewrite Hne, Hlow, Hidem.
    reflexivity.
  - intros terminal size_flag Hne Hlow. unfold detect_size.
    apply String.eqb_neq in Hne. rewrite Hne, Hlow. reflexivity.
  - apply detect_size_raises.
  - intros terminal. repeat split; reflexivity.
Qed.

End SizeFlag.

Section WholeRun.

Context {G : Type} {RS : RandomSource G} {RL : RandomLaws G} {LM : Libm}
        {CK : Clock} {U : Unicode}.

Import FireworkShow.

(** On finite positions and a canvas with a row at least, [render]
    returns a frame of [height] lines and leaves the show alone. *)
Lemma render_lines (w : world G) :
  Forall finite_position (particles (self w)) -> 0 < height (self w) ->
  exists frame w',
    render w = Ok (frame, w') /\ self w' = self w /\
    length (split_lines frame) = Z.to_nat (height (self w)).
Proof.
  intros Hfin Hh.
  destruct (render_runs w Hfin) as (canvas & colour_map & w' & Hrender & Hok
                                    & _).
  destruct (zip_grids_ok _ _ _ Hok) as (Hfmt & Hlen & Hrows).
  exists (_format_canvas canvas colour_map), w'.
  split; [exact Hrender |].
  split; [exact (render_keeps_self _ _ _ Hrender) |].
  rewrite Hfmt, split_lines_join.
  - rewrite length_map. exact Hlen.
  - apply Forall_map. eapply Forall_impl; [exact Hrows |].
    intros row [_ Hcells]. exact (row_text_no_newline _ row Hcells).
  - intros Hnil. apply (f_equal (@length string)) in Hnil.
    rewrite length_map, Hlen in Hnil. cbn in Hnil. lia.
Qed.

(** The loop of [main] on a show whose band is in order and whose
    particles are on the canvas, with a delay [time.sleep] takes: it
    runs through, printing one text for each frame. *)
Lemma show_loop_runs (total : Z) (secs : float) (todo : list Z)
      (w : world G) :
  sleep secs = Ok tt ->
  band_in_order (width (self w)) (height (self w)) = true ->
  0 < height (self w) ->
  Forall (live_on_canvas (self w)) (particles (self w)) ->
  exists frs w',
    show_loop total secs todo w
    = (zip_with (frame_text total) todo frs, frs, Ok w')
    /\ length frs = length todo /\
    Forall (fun frame => length (split_lines frame)
                         = Z.to_nat (height (self w))) frs.
Proof.
  intros Hsleep. revert w.
  induction todo as [| frame todo IH]; intros w Hband Hh Hlive.
  - exists [], w. split; [reflexivity |]. split; [reflexivity | constructor].
  - destruct (step_ok w Hband) as [w1 Hstep].
    destruct (step_leaves_live w w1 Hstep) as (Hlive1 & Hwd1 & Hht1).
    destruct (render_lines w1) as (frame_data & w2 & Hrender & Hself2 & Hlines).
    { eapply Forall_impl; [exact Hlive1 |]. apply live_finite. }
    { rewrite Hht1. exact Hh. }
    destruct (IH w2) as (frs & w3 & Hloop & Hlen & Hall).
    { rewrite Hself2, Hwd1, Hht1. exact Hband. }
    { rewrite Hself2, Hht1. exact Hh. }
    { rewrite Hself2. exact Hlive1. }
    exists (frame_data :: frs), w3. cbn [show_loop].
    rewrite Hstep, Hrender, Hsleep, Hloop. split; [reflexivity |].
    split; [cbn; rewrite Hlen; reflexivity |].
    rewrite Hself2, Hht1 in Hall. rewrite Hht1 in Hlines.
    constructor; assumption.
Qed.

(** [main] on a size that is detected and positive, with a delay
    [time.sleep] takes. *)
Lemma main_runs (env : Env G) (args : Args) (width height : Z) :
  detect_size (terminal_size env) (size args) = Ok (width, height) ->
  0 < width < 2 ^ 1000 -> 0 < height < 2 ^ 1000 ->
  sleep (interval args) = Ok tt ->
  status (main env args) = Ok tt /\
  stdout (main env args)
  = CLEAR :: zip_with (frame_text (frames args)) (PySeq.range (frames args))
                      (rendered (main env args)) ++ [GOODBYE] /\
  Z.of_nat (length (rendered (main env args))) = Z.max 0 (frames args) /\
  Forall (fun frame => Z.of_nat (length (split_lines frame)) = height)
         (rendered (main env args)).
Proof.
  intros Hsize Hwd Hht Hsleep. unfold main, startup. rewrite Hsize.
  pose proof (band_on_canvas_in_order _ _
                (band_on_canvas_positive _ _ Hwd Hht)) as Hband.
  set (g := match seed_arg args with
            | Some n => seed n
            | None => startup_rng env
            end).
  destruct (show_loop_runs (frames args) (interval args)
              (PySeq.range (frames args))
              (World (default width height) g) Hsleep)
    as (frs & w' & Hloop & Hlen & Hall);
    [exact Hband | cbn; lia | constructor |].
  rewrite Hloop. cbn [status stdout rendered].
  split; [reflexivity |]. split; [reflexivity |].
  split; [rewrite Hlen, range_length; lia |].
  eapply Forall_impl; [exact Hall |]. cbn. intros frame ->. lia.
Qed.

(** [main] on a positive size, with a frame to show and a delay
    [time.sleep] refuses. *)
Lemma main_stops (env : Env G) (args : Args) (width height : Z) (e : exn) :
  detect_size (terminal_size env) (size args) = Ok (width, height) ->
  0 < width < 2 ^ 1000 -> 0 < height < 2 ^ 1000 ->
  0 < frames args ->
  sleep (interval args) = Raise e ->
  exists frame_data,
    main env args
    = {| stdout := [CLEAR; frame_text (frames args) 0 frame_data];
         rendered := [frame_data]; status := Raise e |} /\
    Z.of_nat (length (split_lines frame_data)) = height.
Proof.
  intros Hsize Hwd Hht Hframes Hsleep.
  pose proof (band_on_canvas_in_order _ _
                (band_on_canvas_positive _ _ Hwd Hht)) as Hband.
  unfold main, startup. rewrite Hsize.
  set (g := match seed_arg args with
            | Some n => seed n
            | None => startup_rng env
            end).
  unfold PySeq.range.
  destruct (Z.to_nat (frames args)) as [| n] eqn:Hn; [lia |].
  cbn [seq map show_loop].
  destruct (step_ok (World (default width height) g) Hband) as [w1 Hstep].
  destruct (step_leaves_live _ w1 Hstep) as (Hlive1 & Hwd1 & Hht1).
  destruct (render_lines w1) as (frame_data & w2 & Hrender & _ & Hlines).
  { eapply Forall_impl; [exact Hlive1 |]. apply live_finite. }
  { rewrite Hht1. cbn. lia. }
  rewrite Hstep, Hrender, Hsleep. exists frame_data.
  split; [reflexivity |].
  rewrite Hlines, Hht1. cbn. lia.
Qed.

(** X8.  On a size that is detected and positive, with a delay that
    [time.sleep] takes, [main] runs through: it ends without exception,
    with the exit status 0, has printed the clear code, one text for
    each frame of [range(frames)] and the goodbye, and each frame has
    [height] lines. *)
Theorem main_completes (env : Env G) (args : Args) (width height : Z) :
  detect_size (terminal_size env) (size args) = Ok (width, height) ->
  0 < width < 2 ^ 1000 -> 0 < height < 2 ^ 1000 ->
  sleep (interval args) = Ok tt ->
  status (main env args) = Ok tt /\
  exit_code (main env args) = 0 /\
  stdout (main env args)
  = CLEAR :: zip_with (frame_text (frames args)) (PySeq.range (frames args))
                      (rendered (main env args)) ++ [GOODBYE] /\
  Z.of_nat (length (rendered (main env args))) = Z.max 0 (frames args) /\
  Forall (fun frame => Z.of_nat (length (split_lines frame)) = height)
         (rendered (main env args)).
Proof.
  intros Hsize Hwd Hht Hsleep.
  destruct (main_runs env args width height Hsize Hwd Hht Hsleep)
    as (Hstatus & Hrest).
  split; [exact Hstatus |]. split; [| exact Hrest].
  unfold exit_code. rewrite Hstatus. reflexivity.
Qed.

(** X10.  With the size ["auto"] and a delay that [time.sleep] takes,
    in a terminal of any size up to [2^1000], zero and negative sizes
    included, [main] ends without exception, and each frame has
    [max 15 (lines - 1)] lines. *)
Theorem auto_size_never_fails (env : Env G) (args : Args) :
  size args = "auto"%string ->
  fst (terminal_size env) <= 2 ^ 1000 -> snd (terminal_size env) <= 2 ^ 1000 ->
  sleep (interval args) = Ok tt ->
  status (main env args) = Ok tt /\
  Forall (fun frame =>
            Z.of_nat (length (split_lines frame))
            = Z.max 15 (snd (terminal_size env) - 1))
         (rendered (main env args)).
Proof.
  intros Hauto Hw Hh Hsleep.
  destruct (terminal_size env) as [tw th] eqn:Ht.
  cbn [fst snd] in *.
  assert (H1000 : 40 < 2 ^ 1000) by reflexivity.
  destruct (main_runs env args (Z.max 40 (tw - 1)) (Z.max 15 (th - 1)))
    as (Hstatus & _ & _ & Hlines); try lia.
  - rewrite Hauto, Ht. reflexivity.
  - exact Hsleep.
  - split; [exact Hstatus | exact Hlines].
Qed.

(** X11.  With a frame count of zero or below, [main] on a size that
    parses, positive or not, calls neither [step] nor [render] nor
    [time.sleep]: it prints the clear code and the goodbye and ends
    without exception, whatever the delay. *)
Theorem no_frames_no_show (env : Env G) (args : Args) (width height : Z) :
  frames args <= 0 ->
  detect_size (terminal_size env) (size args) = Ok (width, height) ->
  main env args
  = {| stdout := [CLEAR; GOODBYE]; rendered := []; status := Ok tt |}.
Proof.
  intros Hframes Hsize. unfold main, startup. rewrite Hsize.
  unfold PySeq.range. replace (Z.to_nat (frames args)) with 0%nat by lia.
  reflexivity.
Qed.

(** X12.  When [time.sleep] raises on the delay, as CPython does on a
    negative one, [main] on a positive size and with a frame to show has
    printed the clear code and the first frame, of [height] lines, and
    ends with that exception: no further frame, no goodbye, the exit
    status 1. *)
Theorem failed_sleep_stops_show (env : Env G) (args : Args)
        (width height : Z) (e : exn) :
  detect_size (terminal_size env) (size args) = Ok (width, height) ->
  0 < width < 2 ^ 1000 -> 0 < height < 2 ^ 1000 ->
  0 < frames args ->
  sleep (interval args) = Raise e ->
  exists frame_data,
    main env args
    = {| stdout := [CLEAR; frame_text (frames args) 0 frame_data];
         rendered := [frame_data]; status := Raise e |} /\
    Z.of_nat (length (split_lines frame_data)) = height /\
    exit_code (main env args) = 1.
Proof.
  intros Hsize Hwd Hht Hframes Hsleep.
  destruct (main_stops env args width height e Hsize Hwd Hht Hframes Hsleep)
    as (frame_data & Hmain & Hlines).
  exists frame_data. split; [exact Hmain |]. split; [exact Hlines |].
  rewrite Hmain. reflexivity.
Qed.

End WholeRun.

Section Painting.

Context {G : Type} {RS : RandomSource G} {RL : RandomLaws G} {LM : Libm}.

Import FireworkShow.

(** A float from [0] up to, not including, the integer [n] truncates to
    an integer of the same range. *)
Lemma int_of_float_in_range (x : float) (n : Z) :
  PyNum.float_ge_int x 0 = true -> PyNum.float_lt_int x n = true ->
  exists ix, PyNum.int_of_float x = Ok ix /\ 0 <= ix < n.
Proof.
  unfold PyNum.float_ge_int, PyNum.float_lt_int, PyNum.float_cmp_int,
    PyNum.int_of_float.
  destruct (Prim2SF x) as [s | [|] | | s m e]; try discriminate.
  - intros _ Hlt. exists 0. split; [reflexivity |].
    destruct (Z.compare_spec 0 n); try discriminate. lia.
  - destruct (Z.leb_spec 0 e) as [He | He].
    + assert (Hp : 0 < 2 ^ e) by (apply Z.pow_pos_nonneg; lia).
      destruct s; cbn [PyNum.signed].
      * intros Hge. exfalso.
        destruct (Z.compare_spec (Z.neg m * 2 ^ e) 0); try discriminate; nia.
      * intros _ Hlt. exists (Z.shiftl (Z.pos m) e).
        split; [reflexivity |]. rewrite Z.shiftl_mul_pow2 by lia.
        destruct (Z.compare_spec (Z.pos m * 2 ^ e) n); try discriminate.
        nia.
    + assert (Hp : 0 < 2 ^ (- e)) by (apply Z.pow_pos_nonneg; lia).
      destruct s; cbn [PyNum.signed].
      * intros Hge. exfalso.
        destruct (Z.compare_spec (Z.neg m) (0 * 2 ^ (- e)));
          try discriminate; lia.
      * intros _ Hlt. exists (Z.shiftl (Z.pos m) e).
        split; [reflexivity |].
        replace e with (- - e) at 1 2 by lia.
        rewrite Z.shiftl_opp_r, Z.shiftr_div_pow2 by lia.
        destruct (Z.compare_spec (Z.pos m) (n * 2 ^ (- e)));
          try discriminate.
        split; [apply Z.div_pos; lia |].
        apply Z.div_lt_upper_bound; lia.
Qed.

(** A particle on the canvas in the sense of [step] passes the test of
    [render]. *)
Lemma on_canvas_plotted (s : t) (p : Particle.t) :
  on_canvas s p = true -> plotted s p = true.
Proof.
  unfold on_canvas, PyNum.int_le_float. intros Hc.
  apply andb_true_iff in Hc as [Hx Hy].
  apply andb_true_iff in Hx as [Hx0 Hx1].
  apply andb_true_iff in Hy as [Hy0 Hy1].
  destruct (int_of_float_in_range _ _ Hx0 Hx1) as (ix & Hix & Hrx).
  destruct (int_of_float_in_range _ _ Hy0 Hy1) as (iy & Hiy & Hry).
  unfold plotted. rewrite Hix, Hiy.
  repeat (apply andb_true_iff; split);
    first [apply Z.leb_le; lia | apply Z.ltb_lt; lia].
Qed.

Lemma cell_at_set {A} (grid : list (list A)) (row : list A) (iy ix i j : Z)
      (v : A) :
  0 <= iy -> 0 <= ix -> 0 <= i -> 0 <= j ->
  grid !! Z.to_nat iy = Some row -> (Z.to_nat ix < length row)%nat ->
  cell_at (<[Z.to_nat iy := <[Z.to_nat ix := v]> row]> grid) i j
  = if (iy =? i) && (ix =? j) then Some v else cell_at grid i j.
Proof.
  intros Hiy Hix Hi Hj Hrow Hlen. unfold cell_at.
  destruct (Z.eqb_spec iy i) as [<- | Hne]; cbn [andb].
  - rewrite list_lookup_insert_eq by (eapply lookup_lt_Some; exact Hrow).
    rewrite Hrow.
    destruct (Z.eqb_spec ix j) as [<- | Hne].
    + apply list_lookup_insert_eq. exact Hlen.
    + apply list_lookup_insert_ne. lia.
  - rewrite list_lookup_insert_ne by lia. reflexivity.
Qed.

(** What the body of the loop of [render] does with one particle. *)
Lemma plot_spec (s : t) canvas colour_map (p : Particle.t) (w : world G) :
  grids_ok s canvas colour_map ->
  finite_position p -> In p (particles s) ->
  exists canvas' colour_map',
    plot s (canvas, colour_map) p w
    = Ok ((canvas', colour_map'),
          if plotted s p
          then World (self w) (snd (choice GLYPHS (rng w))) else w) /\
    grids_ok s canvas' colour_map' /\
    forall i j, 0 <= i < height s -> 0 <= j < width s ->
      cell_at colour_map' i j
      = if lands p i j then Some (Some (Particle.colour p))
        else cell_at colour_map i j.
Proof.
  intros Hok [Hfx Hfy] Hin.
  destruct (int_of_float_finite _ Hfx) as [ix Hix].
  destruct (int_of_float_finite _ Hfy) as [iy Hiy].
  unfold plot, bind, lift, plotted, lands. rewrite Hix, Hiy.
  destruct ((0 <=? ix) && (ix <? width s)
            && ((0 <=? iy) && (iy <? height s))) eqn:Hguard.
  - apply andb_true_iff in Hguard as [Hgx Hgy].
    apply andb_true_iff in Hgx as [Hx0 Hx1].
    apply andb_true_iff in Hgy as [Hy0 Hy1].
    apply Z.leb_le in Hx0, Hy0. apply Z.ltb_lt in Hx1, Hy1.
    destruct (choice_elem _ GLYPHS (rng w) ltac:(discriminate))
      as (glyph & Hpick & Hglyph).
    destruct Hok as [Hlen Hrows].
    destruct (lookup_lt_is_Some_2 canvas (Z.to_nat iy) ltac:(lia))
      as [row Hrow].
    destruct (Forall2_lookup_l _ _ _ _ _ Hrows Hrow)
      as (colour_row & Hcrow & Hwidth & Hcells).
    pose proof (Forall2_length _ _ _ Hcells) as Hsame.
    unfold draw. destruct (choice GLYPHS (rng w)) as [pick g'] eqn:Hch.
    cbn [fst snd] in *. subst pick.
    rewrite (set_cell_ok canvas iy ix row glyph) by (first [lia | exact Hrow]).
    rewrite (set_cell_ok colour_map iy ix colour_row
               (Some (Particle.colour p)))
      by (first [lia | exact Hcrow]).
    eexists _, _. split; [reflexivity |]. split.
    + split.
      * rewrite length_insert. exact Hlen.
      * apply Forall2_insert; [exact Hrows |]. split.
        -- rewrite length_insert. exact Hwidth.
        -- apply Forall2_insert; [exact Hcells |].
           right. exists glyph, p. auto.
    + intros i j Hi Hj.
      apply cell_at_set; first [lia | exact Hcrow].
  - eexists _, _. split; [reflexivity |]. split; [exact Hok |].
    intros i j Hi Hj.
    destruct (Z.eqb_spec iy i) as [<- | Hne]; [| reflexivity].
    destruct (Z.eqb_spec ix j) as [<- | Hne]; [| reflexivity].
    exfalso. apply andb_false_iff in Hguard as [Hg | Hg];
      apply andb_false_iff in Hg as [Hg | Hg];
      first [apply Z.leb_gt in Hg | apply Z.ltb_ge in Hg]; lia.
Qed.

Lemma iter_shift {A} (f : A -> A) (n : nat) (a : A) :
  Nat.iter (S n) f a = Nat.iter n f (f a).
Proof.
  induction n as [| n IH]; [reflexivity |].
  change (f (Nat.iter (S n) f a) = f (Nat.iter n f (f a))).
  rewrite IH. reflexivity.
Qed.

Lemma glyph_draws_S (n : nat) (g : G) :
  glyph_draws (S n) g = glyph_draws n (snd (choice GLYPHS g)).
Proof.
  unfold glyph_draws.
  exact (iter_shift (fun g0 : G => snd (choice GLYPHS g0)) n g).
Qed.

(** The loop of [render]. *)
Lemma plot_loop_spec (s : t) (ps : list Particle.t) :
  Forall finite_position ps -> (forall p, In p ps -> In p (particles s)) ->
  forall canvas colour_map (w : world G),
    grids_ok s canvas colour_map ->
    exists canvas' colour_map',
      for_each (plot s) ps (canvas, colour_map) w
      = Ok ((canvas', colour_map'),
            World (self w)
                  (glyph_draws (length (List.filter (plotted s) ps)) (rng w)))
      /\ grids_ok s canvas' colour_map' /\
      (ps = [] -> canvas' = canvas /\ colour_map' = colour_map) /\
      forall i j, 0 <= i < height s -> 0 <= j < width s ->
        forall c, cell_at colour_map i j = Some c ->
                  cell_at colour_map' i j = Some (paint c ps i j).
Proof.
  induction 1 as [| p ps Hp _ IH]; intros Hin canvas colour_map w Hok.
  - exists canvas, colour_map. split; [destruct w; reflexivity |].
    split; [exact Hok |]. split; [intros _; split; reflexivity |].
    intros i j _ _ c Hc. exact Hc.
  - destruct (plot_spec s canvas colour_map p w Hok Hp
                (Hin p (or_introl eq_refl)))
      as (canvas1 & colour_map1 & Hplot & Hok1 & Hcell1).
    match type of Hplot with _ = Ok (_, ?w1) =>
      destruct (IH (fun q Hq => Hin q (or_intror Hq)) canvas1 colour_map1 w1
                  Hok1)
        as (canvas2 & colour_map2 & Hloop & Hok2 & _ & Hcell2)
    end.
    exists canvas2, colour_map2.
    split; [| split; [exact Hok2 | split; [discriminate |]]].
    + cbn [for_each]. rewrite (bind_run _ _ _ _ _ Hplot), Hloop.
      cbn [List.filter]. destruct (plotted s p); cbn [self rng length].
      * rewrite glyph_draws_S. reflexivity.
      * reflexivity.
    + intros i j Hi Hj c Hc. cbn [paint fold_left].
      specialize (Hcell1 i j Hi Hj). rewrite Hc in Hcell1.
      apply (Hcell2 i j Hi Hj).
      destruct (lands p i j); exact Hcell1.
Qed.

Lemma lookup_const_map {A B} (v : B) (l : list A) (n : nat) :
  (n < length l)%nat -> map (fun _ => v) l !! n = Some v.
Proof.
  revert n. induction l as [| a l IH]; intros n Hn; cbn in *; [lia |].
  destruct n as [| n]; [reflexivity |]. apply IH. lia.
Qed.

Lemma lookup_map {A B} (f : A -> B) (l : list A) (n : nat) (a : A) :
  l !! n = Some a -> map f l !! n = Some (f a).
Proof.
  revert n. induction l as [| a0 l IH]; intros n Hn; [discriminate |].
  destruct n as [| n]; cbn in *; [congruence | apply IH; exact Hn].
Qed.

Lemma lookup_combine {A B} (l : list A) (k : list B) (n : nat) (a : A)
      (b : B) :
  l !! n = Some a -> k !! n = Some b -> combine l k !! n = Some (a, b).
Proof.
  revert k n. induction l as [| a0 l IH]; intros k n Ha Hb; [discriminate |].
  destruct k as [| b0 k]; [discriminate |].
  destruct n as [| n]; cbn in *; [congruence | apply IH; assumption].
Qed.

Lemma cell_at_blank {A} (v : A) (width height i j : Z) :
  0 <= i < height -> 0 <= j < width ->
  cell_at (map (fun _ => map (fun _ => v) (PySeq.range width))
               (PySeq.range height)) i j = Some v.
Proof.
  intros Hi Hj. unfold cell_at.
  rewrite lookup_const_map by (rewrite range_length; lia).
  apply lookup_const_map. rewrite range_length. lia.
Qed.

Lemma cell_at_zip (canvas : list (list string))
      (colour_map : list (list (option Z))) (i j : Z) ch c :
  cell_at canvas i j = Some ch -> cell_at colour_map i j = Some c ->
  cell_at (map (fun rows : list string * list (option Z) =>
                  combine (fst rows) (snd rows))
               (combine canvas colour_map)) i j = Some (ch, c).
Proof.
  unfold cell_at. intros Hch Hc.
  destruct (canvas !! Z.to_nat i) as [row |] eqn:Hrow; [| discriminate].
  destruct (colour_map !! Z.to_nat i) as [crow |] eqn:Hcrow; [| discriminate].
  rewrite (lookup_map _ _ _ _ (lookup_combine _ _ _ _ _ Hrow Hcrow)).
  cbn [fst snd]. apply lookup_combine; assumption.
Qed.

(** In well formed grids every cell of the canvas is there, in both. *)
Lemma grids_ok_cell (s : t) canvas colour_map (i j : Z) :
  grids_ok s canvas colour_map ->
  0 <= i < height s -> 0 <= j < width s ->
  exists ch c, cell_at canvas i j = Some ch /\
               cell_at colour_map i j = Some c /\ cell_of s (ch, c).
Proof.
  intros [Hlen Hrows] Hi Hj. unfold cell_at.
  destruct (lookup_lt_is_Some_2 canvas (Z.to_nat i) ltac:(lia)) as [row Hrow].
  destruct (Forall2_lookup_l _ _ _ _ _ Hrows Hrow)
    as (crow & Hcrow & Hwidth & Hcells).
  destruct (lookup_lt_is_Some_2 row (Z.to_nat j) ltac:(lia)) as [ch Hch].
  destruct (Forall2_lookup_l _ _ _ _ _ Hcells Hch) as (c & Hc & Hcell).
  exists ch, c. rewrite Hrow, Hcrow. auto.
Qed.

Lemma filter_plotted_all (s : t) (ps : list Particle.t) :
  Forall (fun p => on_canvas s p = true) ps ->
  List.filter (plotted s) ps = ps.
Proof.
  induction 1 as [| p ps Hp _ IH]; [reflexivity |].
  cbn [List.filter]. rewrite (on_canvas_plotted _ _ Hp), IH. reflexivity.
Qed.

(** What [render] returns: the shape of the frame, its cells and the
    draws made. *)
Lemma render_spec (w : world G) :
  Forall finite_position (particles (self w)) ->
  exists (grid : list (list (string * option Z))),
    render w
    = Ok (PySeq.join NL (map row_text grid),
          World (self w)
                (glyph_draws
                   (length (List.filter (plotted (self w))
                                        (particles (self w))))
                   (rng w))) /\
    (length grid = Z.to_nat (height (self w)) /\
     Forall (fun row => length row = Z.to_nat (width (self w)) /\
                        Forall (cell_of (self w)) row) grid /\
     (particles (self w) = [] ->
      map row_text grid
      = repeat (spaces (Z.to_nat (width (self w))))
               (Z.to_nat (height (self w))))) /\
    forall i j, 0 <= i < height (self w) -> 0 <= j < width (self w) ->
      exists ch,
        cell_at grid i j = Some (ch, paint None (particles (self w)) i j) /\
        (paint None (particles (self w)) i j = None -> ch = SPACE) /\
        (paint None (particles (self w)) i j <> None -> In ch GLYPHS).
Proof.
  intros Hfin. set (s := self w).
  destruct (plot_loop_spec s (particles s) Hfin (fun p Hp => Hp) _ _ w
              (grids_ok_blank s))
    as (canvas & colour_map & Hloop & Hok & Hblank & Hcells).
  destruct (zip_grids_ok s canvas colour_map Hok) as (Hfmt & Hlen & Hrows).
  eexists. split; [| split].
  - unfold render, bind, get. fold s. rewrite Hloop. cbn [fst snd].
    unfold ret. rewrite Hfmt. reflexivity.
  - split; [exact Hlen |]. split; [exact Hrows |].
    intros Hnone. destruct (Hblank Hnone) as [-> ->]. apply blank_rows.
  - intros i j Hi Hj.
    destruct (grids_ok_cell s canvas colour_map i j Hok Hi Hj)
      as (ch & c & Hch & Hc & Hcell).
    pose proof (Hcells i j Hi Hj None (cell_at_blank None _ _ i j Hi Hj))
      as Hpaint.
    rewrite Hc in Hpaint. injection Hpaint as ->.
    exists ch. split; [apply cell_at_zip; assumption |].
    destruct Hcell as [[= -> Hnone] | (glyph & p & Hg & _ & [= -> Hsome])].
    + split; [reflexivity | intros Hne; congruence].
    + split; [intros Hnone; congruence | intros _; exact Hg].
Qed.

(** C7.  In a show whose particles have finite positions, as they have
    in every state [step] leaves, [render] returns the rows of a grid
    joined by newlines.  The grid has [height] rows of [width] cells;
    splitting the text at the newlines gives back these [height] rows.
    The cell of row [i], column [j] is occupied when a particle's
    truncated position is that cell: its text is then a spark glyph
    between the colour escape of the last such particle and the reset;
    it is one space when no particle is there.  With no live particle
    the rows are [height] times [width] spaces and no draw is made. *)
Theorem render_frame (w : world G) :
  Forall finite_position (particles (self w)) ->
  exists (grid : list (list (string * option Z))) (w' : world G),
    render w = Ok (PySeq.join NL (map row_text grid), w') /\
    Z.of_nat (length grid) = Z.max 0 (height (self w)) /\
    Forall (fun row =>
              Z.of_nat (length row) = Z.max 0 (width (self w)) /\
              Forall (cell_of (self w)) row) grid /\
    (0 < height (self w) ->
     split_lines (PySeq.join NL (map row_text grid)) = map row_text grid) /\
    (forall i j, 0 <= i < height (self w) -> 0 <= j < width (self w) ->
       exists cell,
         cell_at grid i j = Some cell /\
         match paint None (particles (self w)) i j with
         | None => cell = (SPACE, None) /\ cell_text cell = " "%string
         | Some colour =>
             exists glyph,
               In glyph GLYPHS /\ cell = (glyph, Some colour) /\
               cell_text cell
               = (ESC ++ "[38;5;" ++ PyNum.str_of_int colour ++ "m" ++ glyph
                      ++ ESC ++ "[0m")%string
         end) /\
    (particles (self w) = [] ->
     w' = w /\
     map row_text grid
     = repeat (spaces (Z.to_nat (width (self w))))
              (Z.to_nat (height (self w)))).
Proof.
  intros Hfin.
  destruct (render_spec w Hfin)
    as (grid & Hrender & (Hlen & Hrows & Hblank) & Hcells).
  eexists grid, _. split; [exact Hrender |].
  split; [rewrite Hlen; lia |]. split; [| split; [| split]].
  - eapply Forall_impl; [exact Hrows |].
    intros row [Hw Hcell]. split; [rewrite Hw; lia | exact Hcell].
  - intros Hh. apply split_lines_join.
    + apply Forall_map. eapply Forall_impl; [exact Hrows |].
      intros row [_ Hcell]. exact (row_text_no_newline (self w) row Hcell).
    + intros Hnil. apply (f_equal (@length string)) in Hnil.
      rewrite length_map, Hlen in Hnil. cbn in Hnil. lia.
  - intros i j Hi Hj. destruct (Hcells i j Hi Hj) as (ch & Hcell & Hsp & Hgl).
    exists (ch, paint None (particles (self w)) i j).
    split; [exact Hcell |].
    destruct (paint None (particles (self w)) i j) as [colour |].
    + exists ch. split; [apply Hgl; discriminate |].
      split; reflexivity.
    + rewrite (Hsp eq_refl). split; reflexivity.
  - intros Hnone. split; [| exact (Hblank Hnone)].
    rewrite Hnone. destruct w; reflexivity.
Qed.

(** X6.  On finite positions [render] returns the text of a grid in
    which the cell of row [i], column [j] carries the colour of the last
    particle of the list whose truncated position is that cell, with a
    spark glyph, and is a blank space when no particle is there. *)
Theorem render_paints_last_particle (w : world G) :
  Forall finite_position (particles (self w)) ->
  exists (grid : list (list (string * option Z))) (w' : world G),
    render w = Ok (PySeq.join NL (map row_text grid), w') /\
    forall i j, 0 <= i < height (self w) -> 0 <= j < width (self w) ->
      exists ch,
        cell_at grid i j = Some (ch, paint None (particles (self w)) i j) /\
        (paint None (particles (self w)) i j = None -> ch = SPACE) /\
        (paint None (particles (self w)) i j <> None -> In ch GLYPHS).
Proof.
  intros Hfin.
  destruct (render_spec w Hfin) as (grid & Hrender & _ & Hcells).
  eexists grid, _. split; [exact Hrender | exact Hcells].
Qed.

(** X7.  On finite positions [render] draws a glyph from the generator
    once for each particle whose cell is on the canvas, nothing else,
    and leaves the show as it was.  When all particles are on the canvas
    in the sense of [step], that is one draw for each particle. *)
Theorem render_draws_per_particle (w : world G) :
  Forall finite_position (particles (self w)) ->
  exists (frame : string) (n : nat),
    render w = Ok (frame, World (self w) (glyph_draws n (rng w))) /\
    n = length (List.filter (plotted (self w)) (particles (self w))) /\
    (Forall (fun p => on_canvas (self w) p = true) (particles (self w)) ->
     n = length (particles (self w))).
Proof.
  intros Hfin. destruct (render_spec w Hfin) as (grid & Hrender & _ & _).
  eexists _, _. split; [exact Hrender |]. split; [reflexivity |].
  intros Hon. rewrite (filter_plotted_all _ _ Hon). reflexivity.
Qed.

End Painting.

Section ConcreteMore.

Import FireworkShow.

#[local] Existing Instance poly_libm.
#[local] Existing Instance strict_clock.
#[local] Existing Instance plain_unicode.

(** C6, as stated, fails.  Two seeded runs with the same frame count,
    size and seed, in the same terminal, one with the delay of [0.06]
    and one with the delay of [-1], which [time.sleep] refuses, do not
    render the same frames: the first renders two, the second ends with
    [ValueError] after one. *)
Lemma seeded_runs_differ_by_interval :
  fst first_run = fst hasty_run /\
  frames (snd first_run) = frames (snd hasty_run) /\
  size (snd first_run) = size (snd hasty_run) /\
  seed_arg (snd first_run) = seed_arg (snd hasty_run) /\
  length (rendered (main (fst first_run) (snd first_run))) = 2%nat /\
  length (rendered (main (fst hasty_run) (snd hasty_run))) = 1%nat /\
  rendered (main (fst first_run) (snd first_run))
  <> rendered (main (fst hasty_run) (snd hasty_run)) /\
  status (main (fst first_run) (snd first_run)) = Ok tt /\
  status (main (fst hasty_run) (snd hasty_run)) = Raise ValueError.
Proof.
  do 4 (split; [reflexivity |]).
  do 2 (split; [vm_compute; reflexivity |]).
  split; [| split; vm_compute; reflexivity].
  intros Heq. apply (f_equal (@length string)) in Heq.
  vm_compute in Heq. discriminate Heq.
Qed.

(** [render] on the show after one [step]: ten rows, and every cell as
    the particles lie. *)
Lemma render_frame_witness :
  Forall finite_position (particles (self stepped_world)) /\
  exists (grid : list (list (string * option Z))) (w' : world Lcg.t),
    render stepped_world = Ok (PySeq.join NL (map row_text grid), w') /\
    Z.of_nat (length grid) = Z.max 0 (height (self stepped_world)) /\
    (forall i j,
        0 <= i < height (self stepped_world) ->
        0 <= j < width (self stepped_world) ->
        exists cell,
          cell_at grid i j = Some cell /\
          match paint None (particles (self stepped_world)) i j with
          | None => cell = (SPACE, None) /\ cell_text cell = " "%string
          | Some colour =>
              exists glyph,
                In glyph GLYPHS /\ cell = (glyph, Some colour) /\
                cell_text cell
                = (ESC ++ "[38;5;" ++ PyNum.str_of_int colour ++ "m"
                       ++ glyph ++ ESC ++ "[0m")%string
          end).
Proof.
  assert (Hfin : Forall finite_position (particles (self stepped_world))).
  { assert (Hb : forallb (fun p => PyNum.finite (Particle.x p)
                                   && PyNum.finite (Particle.y p))
                         (particles (self stepped_world)) = true)
      by (vm_compute; reflexivity).
    apply List.Forall_forall. intros p Hp.
    rewrite forallb_forall in Hb. apply andb_true_iff, Hb, Hp. }
  split; [exact Hfin |].
  destruct (render_frame stepped_world Hfin)
    as (grid & w' & Hrender & Hlen & _ & _ & Hcells & _).
  exists grid, w'. split; [exact Hrender |]. split; [exact Hlen | exact Hcells].
Defined.

(** A particle with three frames of life: dead at the third call of
    [Particle.step], and the same ever after. *)
Lemma particle_dies_on_time_witness :
  0 <= Particle.life short_lived /\
  Particle.life (step_times 2 short_lived 0.12 0.92) = 1 /\
  snd (Particle.step (step_times 2 short_lived 0.12 0.92) 0.12 0.92) = false /\
  step_times 7 short_lived 0.12 0.92 = step_times 3 short_lived 0.12 0.92.
Proof.
  assert (Hlife : 0 <= Particle.life short_lived) by (cbn; lia).
  split; [exact Hlife |].
  pose proof (particle_dies_on_time short_lived 0.12 0.92 2 Hlife)
    as (Hafter & Hfalse & _).
  pose proof (particle_dies_on_time short_lived 0.12 0.92 3 Hlife)
    as (_ & _ & Hfrozen).
  split; [exact Hafter |].
  split; [apply Hfalse; cbn; lia |].
  apply Hfrozen; [cbn; lia | lia].
Defined.

(** The first [step] of the show of 10 by 10 with 5 sparks. *)
Lemma step_effect_witness :
  step fresh_world = Ok (tt, stepped_world) /\
  frame_counter (self stepped_world) = frame_counter (self fresh_world) + 1 /\
  exists new,
    spawn_firework fresh_world
    = Ok (tt, World (set_particles (self fresh_world)
                                   (particles (self fresh_world) ++ new))
                    (rng stepped_world)) /\
    particles (self stepped_world)
    = survivors (self fresh_world) (particles (self fresh_world) ++ new) /\
    Z.of_nat (length new) = Z.max 0 (sparks (self fresh_world)).
Proof.
  assert (Hstep : step fresh_world = Ok (tt, stepped_world))
    by (vm_compute; reflexivity).
  split; [exact Hstep |].
  destruct (step_effect fresh_world stepped_world Hstep)
    as (_ & _ & _ & _ & _ & Hframe & due & w1 & new & Hdue & _ & Hforced
        & Hcase & Hparts & _).
  split; [exact Hframe |]. exists new.
  rewrite (Hforced eq_refl) in Hcase, Hdue.
  destruct Hcase as (Hspawn & Hlen & _).
  assert (Hw1 : w1 = fresh_world).
  { change (spawn_due fresh_world) with (Ok (A := bool * world Lcg.t)
                                            (true, fresh_world)) in Hdue.
    injection Hdue as <-. reflexivity. }
  rewrite Hw1 in Hspawn.
  split; [exact Hspawn |]. split; [exact Hparts | exact Hlen].
Defined.

(** After one frame the counter of the show of 10 by 10 is 1. *)
Lemma driven_frame_counter_witness :
  driven 10 10 0.12 0.92 5 1 stepped_world /\
  frame_counter (self stepped_world) = 1 /\ sparks (self stepped_world) = 5.
Proof.
  assert (Hd : driven 10 10 0.12 0.92 5 1 stepped_world).
  { apply driven_step with (w := fresh_world); [apply driven_init |].
    vm_compute; reflexivity. }
  split; [exact Hd |].
  destruct (driven_frame_counter 10 10 0.12 0.92 5 1 stepped_world Hd)
    as (Hframe & _ & _ & _ & _ & Hsparks).
  split; [exact Hframe | exact Hsparks].
Defined.

(** After one frame the show of 10 by 10 with 5 sparks holds at most 195
    particles. *)
Lemma driven_population_bounded_witness :
  driven 10 10 0.12 0.92 5 1 stepped_world /\
  Z.of_nat (length (particles (self stepped_world))) <= 39 * Z.max 0 5 /\
  Forall (fun p => 1 <= Particle.life p <= 39)
         (particles (self stepped_world)).
Proof.
  assert (Hd : driven 10 10 0.12 0.92 5 1 stepped_world).
  { apply driven_step with (w := fresh_world); [apply driven_init |].
    vm_compute; reflexivity. }
  split; [exact Hd |].
  exact (driven_population_bounded 10 10 0.12 0.92 5 1 stepped_world Hd).
Defined.

(** The show with no spark to an explosion is empty after a [step], and
    its frame is blank. *)
Lemma no_sparks_no_particles_witness :
  0 <= 0 /\
  reachable 10 10 0.12 0.92 0 quiet_world /\
  particles (self quiet_world) = [] /\
  render quiet_world
  = Ok (PySeq.join NL (repeat (spaces (Z.to_nat 10)) (Z.to_nat 10)),
        quiet_world).
Proof.
  split; [lia |].
  assert (Hr : reachable 10 10 0.12 0.92 0 quiet_world).
  { apply reach_step with (w := World (init 10 10 0.12 0.92 0) (Lcg.seed 7));
      [apply reach_init | vm_compute; reflexivity]. }
  split; [exact Hr |].
  apply (no_sparks_no_particles 10 10 0.12 0.92 0 quiet_world); [lia | exact Hr].
Defined.

(** The frame of the show after one [step], cell by cell. *)
Lemma render_paints_last_particle_witness :
  Forall finite_position (particles (self stepped_world)) /\
  exists (grid : list (list (string * option Z))) (w' : world Lcg.t),
    render stepped_world = Ok (PySeq.join NL (map row_text grid), w') /\
    forall i j,
      0 <= i < height (self stepped_world) ->
      0 <= j < width (self stepped_world) ->
      exists ch,
        cell_at grid i j
        = Some (ch, paint None (particles (self stepped_world)) i j) /\
        (paint None (particles (self stepped_world)) i j = None ->
         ch = SPACE) /\
        (paint None (particles (self stepped_world)) i j <> None ->
         In ch GLYPHS).
Proof.
  assert (Hfin : Forall finite_position (particles (self stepped_world))).
  { assert (Hb : forallb (fun p => PyNum.finite (Particle.x p)
                                   && PyNum.finite (Particle.y p))
                         (particles (self stepped_world)) = true)
      by (vm_compute; reflexivity).
    apply List.Forall_forall. intros p Hp.
    rewrite forallb_forall in Hb. apply andb_true_iff, Hb, Hp. }
  split; [exact Hfin |].
  exact (render_paints_last_particle stepped_world Hfin).
Defined.

(** [render] on the show after one [step] draws four glyphs, one for
    each of its particles. *)
Lemma render_draws_per_particle_witness :
  Forall finite_position (particles (self stepped_world)) /\
  Forall (fun p => on_canvas (self stepped_world) p = true)
         (particles (self stepped_world)) /\
  exists frame,
    render stepped_world
    = Ok (frame, World (self stepped_world)
                       (glyph_draws 4 (rng stepped_world))).
Proof.
  assert (Hfin : Forall finite_position (particles (self stepped_world))).
  { assert (Hb : forallb (fun p => PyNum.finite (Particle.x p)
                                   && PyNum.finite (Particle.y p))
                         (particles (self stepped_world)) = true)
      by (vm_compute; reflexivity).
    apply List.Forall_forall. intros p Hp.
    rewrite forallb_forall in Hb. apply andb_true_iff, Hb, Hp. }
  assert (Hon : Forall (fun p => on_canvas (self stepped_world) p = true)
                       (particles (self stepped_world))).
  { assert (Hb : forallb (on_canvas (self stepped_world))
                         (particles (self stepped_world)) = true)
      by (vm_compute; reflexivity).
    apply List.Forall_forall. intros p Hp.
    rewrite forallb_forall in Hb. apply Hb, Hp. }
  assert (Hlen : length (particles (self stepped_world)) = 4%nat)
    by (vm_compute; reflexivity).
  split; [exact Hfin |]. split; [exact Hon |].
  destruct (render_draws_per_particle stepped_world Hfin)
    as (frame & n & Hrender & _ & Hall).
  exists frame. rewrite (Hall Hon), Hlen in Hrender. exact Hrender.
Defined.

(** The run of two frames on the canvas of 4 by 3. *)
Lemma main_completes_witness :
  detect_size (terminal_size (fst first_run)) (size (snd first_run))
  = Ok (4, 3) /\
  sleep (interval (snd first_run)) = Ok tt /\
  status (main (fst first_run) (snd first_run)) = Ok tt /\
  exit_code (main (fst first_run) (snd first_run)) = 0 /\
  Z.of_nat (length (rendered (main (fst first_run)
                                              (snd first_run)))) = 2.
Proof.
  assert (Hsize : detect_size (terminal_size (fst first_run))
                              (size (snd first_run)) = Ok (4, 3))
    by reflexivity.
  assert (Hsleep : sleep (interval (snd first_run)) = Ok tt) by reflexivity.
  split; [exact Hsize |]. split; [exact Hsleep |].
  destruct (main_completes (fst first_run) (snd first_run) 4 3 Hsize)
    as (Hstatus & Hexit & _ & Hcount & _);
    [split; reflexivity | split; reflexivity | exact Hsleep |].
  split; [exact Hstatus |]. split; [exact Hexit | exact Hcount].
Defined.

(** The run in a terminal of 80 by 24: frames of 23 lines. *)
Lemma auto_size_never_fails_witness :
  size (snd auto_run) = "auto"%string /\
  sleep (interval (snd auto_run)) = Ok tt /\
  status (main (fst auto_run) (snd auto_run)) = Ok tt /\
  Forall (fun frame => Z.of_nat (length (split_lines frame)) = 23)
         (rendered (main (fst auto_run) (snd auto_run))).
Proof.
  assert (Hsleep : sleep (interval (snd auto_run)) = Ok tt) by reflexivity.
  split; [reflexivity |]. split; [exact Hsleep |].
  apply (auto_size_never_fails (fst auto_run) (snd auto_run)).
  - reflexivity.
  - apply Z.leb_le. vm_compute. reflexivity.
  - apply Z.leb_le. vm_compute. reflexivity.
  - exact Hsleep.
Defined.

(** The run with no frame to show. *)
Lemma no_frames_no_show_witness :
  frames (snd empty_run) <= 0 /\
  main (fst empty_run) (snd empty_run)
  = {| stdout := [CLEAR; GOODBYE]; rendered := []; status := Ok tt |}.
Proof.
  split; [cbn; lia |].
  apply (no_frames_no_show (fst empty_run) (snd empty_run) 4 3);
    [cbn; lia | reflexivity].
Defined.

(** The run with the delay of [-1]: one frame, then the exception. *)
Lemma failed_sleep_stops_show_witness :
  sleep (interval (snd hasty_run)) = Raise ValueError /\
  exists frame_data,
    main (fst hasty_run) (snd hasty_run)
    = {| stdout := [CLEAR; frame_text (frames (snd hasty_run)) 0 frame_data];
         rendered := [frame_data]; status := Raise ValueError |} /\
    Z.of_nat (length (split_lines frame_data)) = 3 /\
    exit_code (main (fst hasty_run) (snd hasty_run)) = 1.
Proof.
  assert (Hsleep : sleep (interval (snd hasty_run)) = Raise ValueError)
    by reflexivity.
  split; [exact Hsleep |].
  apply (failed_sleep_stops_show (fst hasty_run) (snd hasty_run) 4 3);
    [reflexivity | split; reflexivity | split; reflexivity | reflexivity
    | exact Hsleep].
Defined.

End ConcreteMore.
